(** * Complaint triage service: extraction and normalization of model output

    A shallow embedding of [api/claude.js]: the JavaScript values that
    [JSON.parse] produces, the pieces of the JavaScript runtime the file
    relies on ([||], property reads, [toString], [toLowerCase],
    [Math.min]/[Math.max], [String.prototype.match], [JSON.parse]), and the
    three functions of the file: [extractJSON], [normalizeResults] and the
    answer of the [/analyze-complaints] handler once the provider responded. *)

From Stdlib Require Import ZArith NArith Bool Ascii String Lia.
From Stdlib Require Import Floats.SpecFloat.
From stdpp Require Import base list.

#[local] Set Warnings "-register-all".

Open Scope N_scope.

(** ** Strings

    A JavaScript string is a sequence of UTF-16 code units. *)

Abbreviation jsstring := (list N).

Definition js (s : string) : jsstring :=
  map N_of_ascii (list_ascii_of_string s).
Arguments js : simpl never.

Fixpoint str_eqb (s t : jsstring) : bool :=
  match s, t with
  | [], [] => true
  | a :: s', b :: t' => (a =? b) && str_eqb s' t'
  | _, _ => false
  end.

(** [Array.prototype.includes] on an array of strings. *)
Fixpoint includes (l : list jsstring) (s : jsstring) : bool :=
  match l with
  | [] => false
  | x :: l' => str_eqb x s || includes l' s
  end.

(** [String.prototype.toLowerCase].  The model maps the letters [A]-[Z]
    and leaves every other code unit in place: it is the runtime's function
    on ASCII texts.  Outside ASCII the two agree on whether the result is
    one of [urgent], [medium], [low]: the only characters outside ASCII
    whose lower case holds an ASCII letter are U+0130, which becomes [i]
    followed by U+0307, and U+212A, which becomes [k]. *)
Definition lower_unit (c : N) : N :=
  if (65 <=? c) && (c <=? 90) then c + 32 else c.

Definition toLowerCase (s : jsstring) : jsstring := map lower_unit s.

(** Decimal digits of an array index, as [`${idx}`] prints it. *)
Fixpoint digits_fuel (fuel : nat) (n : N) (acc : jsstring) : jsstring :=
  match fuel with
  | O => acc
  | S fuel' =>
      let acc' := (48 + n mod 10) :: acc in
      if n / 10 =? 0 then acc' else digits_fuel fuel' (n / 10) acc'
  end.

Definition decimal (n : N) : jsstring :=
  digits_fuel (S (N.to_nat (N.log2 n))) n [].

(** ** Numbers: IEEE 754 binary64 *)

Abbreviation number := spec_float.

Definition prec : Z := 53.
Definition emax : Z := 1024.

Definition number_of_Z (z : Z) : number := binary_normalize prec emax z 0 false.

(** Comparison of the real numbers two values stand for; [None] when one
    of them is NaN.  Two finite values [m1 * 2^e1] and [m2 * 2^e2] are
    compared on the grid of the smaller exponent. *)
Definition signed (x : number) : Z * Z :=
  match x with
  | S754_finite s m e => (if s then Z.neg m else Z.pos m, e)
  | _ => (0%Z, 0%Z)
  end.

Definition number_compare (a b : number) : option comparison :=
  match a, b with
  | S754_nan, _ | _, S754_nan => None
  | S754_infinity s, S754_infinity t =>
      Some (if s then (if t then Eq else Lt) else (if t then Gt else Eq))
  | S754_infinity s, _ => Some (if s then Lt else Gt)
  | _, S754_infinity t => Some (if t then Gt else Lt)
  | _, _ =>
      let '(m1, e1) := signed a in
      let '(m2, e2) := signed b in
      Some (m1 * 2 ^ (e1 - Z.min e1 e2) ?= m2 * 2 ^ (e2 - Z.min e1 e2))%Z
  end.

(** [Math.max(a, b)] and [Math.min(a, b)]: NaN if either is NaN, and
    [+0] counts as larger than [-0]. *)
Definition Math_max (a b : number) : number :=
  match number_compare a b with
  | None => S754_nan
  | Some Lt => b
  | Some Gt => a
  | Some Eq =>
      match a with
      | S754_zero true => b
      | _ => a
      end
  end.

Definition Math_min (a b : number) : number :=
  match number_compare a b with
  | None => S754_nan
  | Some Lt => a
  | Some Gt => b
  | Some Eq =>
      match a with
      | S754_zero false => b
      | _ => a
      end
  end.

Definition number_eqb (a b : number) : bool :=
  match a, b with
  | S754_zero s, S754_zero t => Bool.eqb s t
  | S754_infinity s, S754_infinity t => Bool.eqb s t
  | S754_nan, S754_nan => true
  | S754_finite s m e, S754_finite t n f =>
      Bool.eqb s t && (m =? n)%positive && (e =? f)%Z
  | _, _ => false
  end.

(** The Number value of the decimal [m * 10^e10] (round to nearest, ties
    to even), as [JSON.parse] reads a number literal. *)
Definition number_of_decimal (neg : bool) (m : N) (e10 : Z) : number :=
  match m with
  | N0 => S754_zero neg
  | Npos m =>
      match e10 with
      | Zneg p => SFdiv prec emax (S754_finite neg m 0) (S754_finite false (10 ^ p) 0)
      | Z0 => binary_round prec emax neg m 0
      | Zpos p => binary_round prec emax neg (m * 10 ^ p) 0
      end
  end.

(** *** [Number::toString] (radix 10)

    For a positive finite [x = m * 2^e] the digits are those of the
    shortest decimal [s * 10^(n-k)] whose Number value is [x]; of two such
    decimals of the same length the one nearer to [x] is taken. *)

(** Numerator and denominator of [x / 10^p]. *)
Definition scaled (m : positive) (e p : Z) : Z * Z :=
  ((Z.pos m * 2 ^ Z.max e 0 * 10 ^ Z.max (- p) 0)%Z,
   (2 ^ Z.max (- e) 0 * 10 ^ Z.max p 0)%Z).

(** The least [n], counting up from [n], with [x < 10^n]. *)
Fixpoint magnitude (fuel : nat) (m : positive) (e n : Z) : Z :=
  match fuel with
  | O => n
  | S fuel' =>
      let '(a, b) := scaled m e n in
      if (a <? b)%Z then n else magnitude fuel' m e (n + 1)%Z
  end.

(** Digits [s] and exponent [n] of the shortest decimal, trying the
    lengths [k], [k+1], ... *)
Fixpoint shortest (fuel : nat) (m : positive) (e n k : Z) : Z * Z :=
  let '(a, b) := scaled m e (n - k) in
  let q := (a / b)%Z in
  let r := (a mod b)%Z in
  let x := S754_finite false m e in
  let lo := number_eqb (number_of_decimal false (Z.to_N q) (n - k)) x in
  let hi := number_eqb (number_of_decimal false (Z.to_N (q + 1)) (n - k)) x in
  let up := if (q + 1 =? 10 ^ k)%Z then (1%Z, (n + 1)%Z) else ((q + 1)%Z, n) in
  match fuel with
  | O => (q, n)
  | S fuel' =>
      if lo && hi then (if (2 * r <=? b)%Z then (q, n) else up)
      else if lo then (q, n)
      else if hi then up
      else shortest fuel' m e n (k + 1)%Z
  end.

Arguments magnitude : simpl never.
Arguments shortest : simpl never.

Definition format_digits (ds : jsstring) (n : Z) : jsstring :=
  let k := Z.of_nat (length ds) in
  if ((k <=? n) && (n <=? 21))%Z then
    ds ++ replicate (Z.to_nat (n - k)) 48
  else if ((0 <? n) && (n <=? 21))%Z then
    take (Z.to_nat n) ds ++ 46 :: drop (Z.to_nat n) ds
  else if ((-6 <? n) && (n <=? 0))%Z then
    48 :: 46 :: replicate (Z.to_nat (- n)) 48 ++ ds
  else
    let sign := if (n - 1 <? 0)%Z then 45 else 43 in
    let ex := 101 :: sign :: decimal (Z.to_N (Z.abs (n - 1))) in
    match ds with
    | [] => ex
    | [d] => d :: ex
    | d :: ds' => d :: 46 :: ds' ++ ex
    end.

Definition Number_toString (x : number) : jsstring :=
  match x with
  | S754_nan => js "NaN"
  | S754_zero _ => js "0"
  | S754_infinity s => (if s then [45] else []) ++ js "Infinity"
  | S754_finite s m e =>
      let n0 := magnitude 640 m e (-324) in
      let '(d, n) := shortest 17 m e n0 1 in
      (if s then [45] else []) ++ format_digits (decimal (Z.to_N d)) n
  end.

(** ** Values

    What [JSON.parse] builds, and [undefined] for an absent property.  An
    object keeps its own properties in insertion order. *)

Inductive value : Type :=
| Undefined
| Null
| Bool (b : bool)
| Num (n : number)
| Str (s : jsstring)
| Arr (items : list value)
| Obj (props : list (jsstring * value)).

(** Exceptions the modelled code can raise; [RequestError] stands for
    what a failed call of the provider throws. *)
Inductive exn : Type :=
| TypeError
| SyntaxError
| RequestError.

(** A computation returns or throws. *)
Inductive outcome (A : Type) : Type :=
| Ret (a : A)
| Throw (e : exn).
Arguments Ret {A} a.
Arguments Throw {A} e.

#[export] Instance outcome_ret : MRet outcome := fun A a => Ret a.
#[export] Instance outcome_bind : MBind outcome := fun A B f m =>
  match m with
  | Ret a => f a
  | Throw e => Throw e
  end.

(** [ToBoolean]. *)
Definition truthy (v : value) : bool :=
  match v with
  | Undefined | Null => false
  | Bool b => b
  | Num (S754_zero _) | Num S754_nan => false
  | Num _ => true
  | Str [] => false
  | Str _ => true
  | Arr _ | Obj _ => true
  end.

(** [a || b], the right operand evaluated only when needed. *)
Definition or_else (a : outcome value) (b : outcome value) : outcome value :=
  v ← a; if truthy v then Ret v else b.

Infix "||>" := or_else (at level 50, left associativity).

(** Own property of an object built by [JSON.parse]. *)
Fixpoint own_property (props : list (jsstring * value)) (k : jsstring) : option value :=
  match props with
  | [] => None
  | (k', v) :: ps => if str_eqb k' k then Some v else own_property ps k
  end.

(** [v.k] for the property names the service reads ([id], [priority],
    [summary], [risk_score], [issues], [text], [rationale], [reason],
    [risk_category], [category], [complaintId], [content]): none of them is
    defined on a prototype, so the read yields the own property of an
    object, [undefined] on any other value, and throws on [null] and
    [undefined]. *)
Definition get (v : value) (k : jsstring) : outcome value :=
  match v with
  | Undefined | Null => Throw TypeError
  | Obj props => Ret (default Undefined (own_property props k))
  | _ => Ret Undefined
  end.

(** [typeof v === 'number'], [typeof v === 'string'], [Array.isArray(v)]. *)
Definition is_number (v : value) : bool :=
  match v with Num _ => true | _ => false end.
Definition is_string (v : value) : bool :=
  match v with Str _ => true | _ => false end.
Definition isArray (v : value) : bool :=
  match v with Arr _ => true | _ => false end.

(** [ToString] on the values above.  An array prints its elements joined
    by commas, [null] and [undefined] elements as nothing.  A plain object
    prints through [Object.prototype.toString] unless it has an own
    [toString] property, which [JSON.parse] can only have filled with a
    value that is not callable. *)
Fixpoint ToString (v : value) : outcome jsstring :=
  match v with
  | Undefined => Ret (js "undefined")
  | Null => Ret (js "null")
  | Bool b => Ret (if b then js "true" else js "false")
  | Num n => Ret (Number_toString n)
  | Str s => Ret s
  | Arr items =>
      (fix join (l : list value) : outcome jsstring :=
         match l with
         | [] => Ret []
         | x :: l' =>
             s ← match x with
                 | Undefined | Null => Ret []
                 | _ => ToString x
                 end;
             match l' with
             | [] => Ret s
             | _ => r ← join l'; Ret (s ++ 44 :: r)
             end
         end) items
  | Obj props =>
      match own_property props (js "toString") with
      | Some _ => Throw TypeError
      | None => Ret (js "[object Object]")
      end
  end.

(** The method call [v.toString()]. *)
Definition toString (v : value) : outcome jsstring :=
  match v with
  | Undefined | Null => Throw TypeError
  | _ => ToString v
  end.

(** [arr.map((x, i) => f(x, i))] with a callback that may throw: elements
    are visited in order, the first exception ends the call.  [i] is the
    index of the head of [l]. *)
Fixpoint map_from {A B : Type} (f : A → nat → outcome B) (i : nat) (l : list A)
  : outcome (list B) :=
  match l with
  | [] => Ret []
  | x :: l' => y ← f x i; ys ← map_from f (S i) l'; Ret (y :: ys)
  end.

(** [arr[i]]: [undefined] past the end. *)
Definition at_index (l : list value) (i : nat) : value :=
  default Undefined (l !! i).

(** ** [normalizeResults] *)

Module Issue.
Record t : Type := mk
  { text : value; rationale : value; risk_category : value }.
End Issue.

Module Result.
Record t : Type := mk
  { id : value;
    priority : jsstring;
    summary : value;
    risk_score : value;
    issues : list Issue.t;
    raw : value }.
End Result.

Definition allowedPriorities : list jsstring :=
  [js "urgent"; js "medium"; js "low"].

(** The callback of [item.issues.slice(0, 10).map(...)]. *)
Definition normalizeIssue (issue : value) : outcome Issue.t :=
  text ← get issue (js "text") ||> Ret (Str []);
  rationale ← get issue (js "rationale") ||> get issue (js "reason") ||> Ret (Str []);
  risk_category ← get issue (js "risk_category") ||> get issue (js "category") ||> Ret Null;
  Ret (Issue.mk text rationale risk_category).

(** The callback of [raw.map((item, idx) => ...)]. *)
Definition normalizeItem (originalComplaints : list value) (item : value) (idx : nat)
  : outcome Result.t :=
  base ← Ret (at_index originalComplaints idx) ||> Ret (Obj []);
  p ← get item (js "priority") ||> Ret (Str []);
  s ← toString p;
  let priority := toLowerCase s in
  id ← get item (js "id") ||> get base (js "id") ||> get base (js "complaintId")
         ||> Ret (Str (js "row-" ++ decimal (N.of_nat idx)));
  summary ← get item (js "summary") ||> Ret (Str []);
  score ← get item (js "risk_score");
  issues ← get item (js "issues");
  issues' ← match issues with
            | Arr l => map_from (λ issue _, normalizeIssue issue) 0 (take 10 l)
            | _ => Ret []
            end;
  Ret (Result.mk
         id
         (if includes allowedPriorities priority then priority else js "medium")
         summary
         (match score with
          | Num n => Num (Math_min (number_of_Z 100) (Math_max (number_of_Z 0) n))
          | _ => Null
          end)
         issues'
         item).

Definition normalizeResults (raw : value) (originalComplaints : list value)
  : outcome (list Result.t) :=
  match raw with
  | Arr items => map_from (normalizeItem originalComplaints) 0 items
  | _ => Ret []
  end.

(** ** Regular expressions

    The fragment of the pattern language that [extractJSON] uses, with the
    backtracking semantics of the runtime: alternatives are tried left to
    right, a star takes as many characters as it can and gives them back
    one by one.  A match is computed against a continuation that receives
    the rest of the input. *)

Inductive regex : Type :=
| Chr (c : N)
| Star (cls : N → bool)
| Seq (r1 r2 : regex)
| Alt (r1 r2 : regex).

Fixpoint run (r : regex) (s : jsstring) (k : jsstring → option jsstring)
  : option jsstring :=
  match r with
  | Chr c =>
      match s with
      | x :: s' => if x =? c then k s' else None
      | [] => None
      end
  | Star cls =>
      (fix star (s : jsstring) : option jsstring :=
         match s with
         | x :: s' =>
             if cls x then
               match star s' with
               | Some rest => Some rest
               | None => k s
               end
             else k s
         | [] => k []
         end) s
  | Seq r1 r2 => run r1 s (λ s', run r2 s' k)
  | Alt r1 r2 =>
      match run r1 s k with
      | Some rest => Some rest
      | None => run r2 s k
      end
  end.

(** [text.match(r)] for a pattern without the [g] flag: the match at the
    leftmost position that has one, as [match[0]]; [None] is [null]. *)
Fixpoint String_match (r : regex) (text : jsstring) : option jsstring :=
  match run r text Some with
  | Some rest => Some (take (length text - length rest) text)
  | None =>
      match text with
      | [] => None
      | _ :: text' => String_match r text'
      end
  end.

(** The class [\s]: white space and line terminators. *)
Definition is_space (c : N) : bool :=
  (c =? 9) || (c =? 10) || (c =? 11) || (c =? 12) || (c =? 13) || (c =? 32)
  || (c =? 160) || (c =? 5760) || ((8192 <=? c) && (c <=? 8202))
  || (c =? 8232) || (c =? 8233) || (c =? 8239) || (c =? 8287)
  || (c =? 12288) || (c =? 65279).

(** The class [[\s\S]]. *)
Definition space_or_not (c : N) : bool := is_space c || negb (is_space c).

Definition lbrace : N := 123.
Definition rbrace : N := 125.
Definition lbracket : N := 91.
Definition rbracket : N := 93.
Definition dquote : N := 34.
Definition backslash : N := 92.

(** [/\{[\s\S]*\}|\[[\s\S]*\]/] *)
Definition json_pattern : regex :=
  Alt (Seq (Chr lbrace) (Seq (Star space_or_not) (Chr rbrace)))
      (Seq (Chr lbracket) (Seq (Star space_or_not) (Chr rbracket))).

(** ** [JSON.parse] *)

Definition is_json_ws (c : N) : bool :=
  (c =? 32) || (c =? 9) || (c =? 10) || (c =? 13).

Fixpoint skip_ws (s : jsstring) : jsstring :=
  match s with
  | c :: s' => if is_json_ws c then skip_ws s' else s
  | [] => []
  end.

Definition is_digit (c : N) : bool := (48 <=? c) && (c <=? 57).

Definition hex_digit (c : N) : option N :=
  if is_digit c then Some (c - 48)
  else if (97 <=? c) && (c <=? 102) then Some (c - 87)
  else if (65 <=? c) && (c <=? 70) then Some (c - 55)
  else None.

(** The characters of a string literal after its opening quote, up to the
    closing quote; [acc] holds the decoded characters, last first. *)
Fixpoint parse_chars (s acc : jsstring) : option (jsstring * jsstring) :=
  match s with
  | [] => None
  | c :: r =>
      if c =? dquote then Some (rev acc, r)
      else if c =? backslash then
        match r with
        | [] => None
        | e :: r1 =>
            if e =? dquote then parse_chars r1 (dquote :: acc)
            else if e =? backslash then parse_chars r1 (backslash :: acc)
            else if e =? 47 then parse_chars r1 (47 :: acc)
            else if e =? 98 then parse_chars r1 (8 :: acc)
            else if e =? 102 then parse_chars r1 (12 :: acc)
            else if e =? 110 then parse_chars r1 (10 :: acc)
            else if e =? 114 then parse_chars r1 (13 :: acc)
            else if e =? 116 then parse_chars r1 (9 :: acc)
            else if e =? 117 then
              match r1 with
              | h1 :: h2 :: h3 :: h4 :: r2 =>
                  match hex_digit h1, hex_digit h2, hex_digit h3, hex_digit h4 with
                  | Some a, Some b, Some c', Some d =>
                      parse_chars r2 (((a * 16 + b) * 16 + c') * 16 + d :: acc)
                  | _, _, _, _ => None
                  end
              | _ => None
              end
            else None
        end
      else if c <? 32 then None
      else parse_chars r (c :: acc)
  end.

(** The longest prefix of digits, and what follows it. *)
Fixpoint span_digits (s : jsstring) : jsstring * jsstring :=
  match s with
  | c :: r =>
      if is_digit c then let '(ds, rest) := span_digits r in (c :: ds, rest)
      else ([], s)
  | [] => ([], [])
  end.

Definition digits_value (ds : jsstring) : N :=
  fold_left (λ a d, 10 * a + (d - 48)) ds 0.

(** A number literal: [-? int frac? exp?], an [int] being [0] or a digit
    string that does not start with [0]. *)
Definition parse_number (s : jsstring) : option (number * jsstring) :=
  let '(neg, s1) :=
    match s with
    | c :: r => if c =? 45 then (true, r) else (false, s)
    | [] => (false, s)
    end in
  let '(int, s2) :=
    match s1 with
    | c :: r => if c =? 48 then ([c], r) else span_digits s1
    | [] => ([], [])
    end in
  match int with
  | [] => None
  | _ =>
      let frac :=
        match s2 with
        | c :: r =>
            if c =? 46 then
              match span_digits r with
              | ([], _) => None
              | (fs, s3) => Some (fs, s3)
              end
            else Some ([], s2)
        | [] => Some ([], s2)
        end in
      match frac with
      | None => None
      | Some (fs, s3) =>
          let ex :=
            match s3 with
            | c :: r =>
                if (c =? 101) || (c =? 69) then
                  let '(eneg, r1) :=
                    match r with
                    | g :: r' =>
                        if g =? 45 then (true, r')
                        else if g =? 43 then (false, r')
                        else (false, r)
                    | [] => (false, r)
                    end in
                  match span_digits r1 with
                  | ([], _) => None
                  | (es, s4) =>
                      let e := Z.of_N (digits_value es) in
                      Some (if eneg then (- e)%Z else e, s4)
                  end
                else Some (0%Z, s3)
            | [] => Some (0%Z, s3)
            end in
          match ex with
          | None => None
          | Some (e, s4) =>
              Some (number_of_decimal neg (digits_value (int ++ fs))
                      (e - Z.of_nat (length fs))%Z, s4)
          end
      end
  end.

(** [s] starts with the word [w]: what follows it. *)
Fixpoint strip_prefix (w s : jsstring) : option jsstring :=
  match w, s with
  | [], _ => Some s
  | a :: w', b :: s' => if a =? b then strip_prefix w' s' else None
  | _ :: _, [] => None
  end.

(** [CreateDataProperty]: a repeated key keeps its place and takes the
    later value. *)
Fixpoint set_property (props : list (jsstring * value)) (k : jsstring) (v : value)
  : list (jsstring * value) :=
  match props with
  | [] => [(k, v)]
  | (k', v') :: ps =>
      if str_eqb k' k then (k', v) :: ps else (k', v') :: set_property ps k v
  end.

Inductive parsed (A : Type) : Type :=
| Parsed (a : A) (rest : jsstring)
| Malformed
| OutOfFuel.
Arguments Parsed {A} a rest.
Arguments Malformed {A}.
Arguments OutOfFuel {A}.

(** Recursive descent.  [parse_elements] reads [value (, value)* ]] and
    [parse_members] reads [string : value (, string : value)* }]; [acc]
    holds what was read so far. *)
Fixpoint parse_value (fuel : nat) (s : jsstring) : parsed value :=
  match fuel with
  | O => OutOfFuel
  | S fuel' =>
      match skip_ws s with
      | [] => Malformed
      | c :: r =>
          if c =? lbrace then
            match skip_ws r with
            | c' :: r' =>
                if c' =? rbrace then Parsed (Obj []) r'
                else parse_members fuel' (c' :: r') []
            | [] => Malformed
            end
          else if c =? lbracket then
            match skip_ws r with
            | c' :: r' =>
                if c' =? rbracket then Parsed (Arr []) r'
                else parse_elements fuel' (c' :: r') []
            | [] => Malformed
            end
          else if c =? dquote then
            match parse_chars r [] with
            | Some (str, r') => Parsed (Str str) r'
            | None => Malformed
            end
          else if (c =? 45) || is_digit c then
            match parse_number (c :: r) with
            | Some (n, r') => Parsed (Num n) r'
            | None => Malformed
            end
          else
            match strip_prefix (js "true") (c :: r) with
            | Some r' => Parsed (Bool true) r'
            | None =>
                match strip_prefix (js "false") (c :: r) with
                | Some r' => Parsed (Bool false) r'
                | None =>
                    match strip_prefix (js "null") (c :: r) with
                    | Some r' => Parsed Null r'
                    | None => Malformed
                    end
                end
            end
      end
  end
with parse_elements (fuel : nat) (s : jsstring) (acc : list value) : parsed value :=
  match fuel with
  | O => OutOfFuel
  | S fuel' =>
      match parse_value fuel' s with
      | Parsed v r =>
          match skip_ws r with
          | c :: r' =>
              if c =? 44 then parse_elements fuel' r' (acc ++ [v])
              else if c =? rbracket then Parsed (Arr (acc ++ [v])) r'
              else Malformed
          | [] => Malformed
          end
      | Malformed => Malformed
      | OutOfFuel => OutOfFuel
      end
  end
with parse_members (fuel : nat) (s : jsstring) (acc : list (jsstring * value))
  : parsed value :=
  match fuel with
  | O => OutOfFuel
  | S fuel' =>
      match skip_ws s with
      | c :: r =>
          if c =? dquote then
            match parse_chars r [] with
            | Some (k, r1) =>
                match skip_ws r1 with
                | c1 :: r2 =>
                    if c1 =? 58 then
                      match parse_value fuel' r2 with
                      | Parsed v r3 =>
                          match skip_ws r3 with
                          | c3 :: r4 =>
                              if c3 =? 44 then
                                parse_members fuel' r4 (set_property acc k v)
                              else if c3 =? rbrace then
                                Parsed (Obj (set_property acc k v)) r4
                              else Malformed
                          | [] => Malformed
                          end
                      | Malformed => Malformed
                      | OutOfFuel => OutOfFuel
                      end
                    else Malformed
                | [] => Malformed
                end
            | None => Malformed
            end
          else Malformed
      | [] => Malformed
      end
  end.

(** Fuel for a text: every call of the three functions above either
    consumes a character or is made by a call that did. *)
Definition parse_fuel (s : jsstring) : nat := 2 * length s + 1.

(** [JSON.parse(text)]: one value, white space around it, nothing else. *)
Definition JSON_parse (text : jsstring) : outcome value :=
  match parse_value (parse_fuel text) text with
  | Parsed v rest =>
      match skip_ws rest with
      | [] => Ret v
      | _ => Throw SyntaxError
      end
  | _ => Throw SyntaxError
  end.

(** ** [extractJSON] *)

Definition extractJSON (text : value) : value :=
  match text with
  | Str s =>
      match String_match json_pattern s with
      | None => Null
      | Some jsonMatch =>
          match JSON_parse jsonMatch with
          | Ret v => v
          | Throw _ => Null
          end
      end
  | _ => Null
  end.

(** ** The [/analyze-complaints] handler *)

(** [v?.k] for the names of [get]. *)
Definition get_opt (v : value) (k : jsstring) : value :=
  match get v k with
  | Ret x => x
  | Throw _ => Undefined
  end.

(** [v?.[0]]. *)
Definition first_opt (v : value) : value :=
  match v with
  | Arr items => at_index items 0
  | Str (c :: _) => Str [c]
  | Obj props => default Undefined (own_property props (js "0"))
  | _ => Undefined
  end.

(** [response.data?.content?.[0]?.text || ''] *)
Definition rawText_of (data : value) : value :=
  let text := get_opt (first_opt (get_opt data (js "content"))) (js "text") in
  if truthy text then text else Str [].

(** The method call [v.slice(0, n)]: strings and arrays have the method,
    any other value of the model throws on the call. *)
Definition slice_to (n : nat) (v : value) : outcome value :=
  match v with
  | Str s => Ret (Str (take n s))
  | Arr items => Ret (Arr (take n items))
  | _ => Throw TypeError
  end.

(** What [res.status(...).json(...)] sends. *)
Inductive body : Type :=
| Results (count : nat) (results : list Result.t)
| Unparsed (error : jsstring) (raw : value)
| Failed (error : jsstring) (detail : option exn).

Record response : Type := Response { status : N; payload : body }.

(** The handler from the provider's answer on: the body of the [try]
    block after [await axios.post(...)]. *)
Definition respond (data : value) (limitedComplaints : list value) : outcome response :=
  let rawText := rawText_of data in
  let parsed := extractJSON rawText in
  normalized ← normalizeResults parsed limitedComplaints;
  match normalized with
  | [] =>
      excerpt ← slice_to 1000 rawText;
      Ret (Response 502 (Unparsed (js "Unable to parse AI response") excerpt))
  | _ => Ret (Response 200 (Results (length normalized) normalized))
  end.

(** The whole handler.  [hasKey] tells whether [CLAUDE_API_KEY] is set,
    [complaints] is the field of the request body, and [completion] is
    what awaiting the provider call yields: the response data, or the
    exception of a failed call. *)
Definition analyze_complaints (hasKey : bool) (complaints : value)
    (completion : outcome value) : response :=
  match complaints with
  | Arr (c :: cs) =>
      if hasKey then
        match (data ← completion; respond data (take 50 (c :: cs))) with
        | Ret r => r
        | Throw e => Response 500 (Failed (js "Analysis failed") (Some e))
        end
      else Response 500 (Failed (js "CLAUDE_API_KEY not configured on server.") None)
  | _ => Response 400 (Failed (js "Complaints (non-empty array) required.") None)
  end.

(** ** Notions used to state the properties *)

(** [null] and [undefined]. *)
Definition nullish (v : value) : bool :=
  match v with Undefined | Null => true | _ => false end.

(** The value of [v.k] when the read does not throw. *)
Definition prop (v : value) (k : jsstring) : value :=
  match v with
  | Obj props => default Undefined (own_property props k)
  | _ => Undefined
  end.

(** [a || b] on values. *)
Definition or_value (a b : value) : value := if truthy a then a else b.

(** [Math.min(100, Math.max(0, n))] *)
Definition clamp (n : number) : number :=
  Math_min (number_of_Z 100) (Math_max (number_of_Z 0) n).

(** [originalComplaints[idx] || {}] *)
Definition base_of (originalComplaints : list value) (idx : nat) : value :=
  or_value (at_index originalComplaints idx) (Obj []).

(** [base.id || base.complaintId || `row-${idx}`] *)
Definition fallback_id (originalComplaints : list value) (idx : nat) : value :=
  let base := base_of originalComplaints idx in
  or_value (or_value (prop base (js "id")) (prop base (js "complaintId")))
           (Str (js "row-" ++ decimal (N.of_nat idx))).

(** A field of an input complaint that is absent or a non-empty string. *)
Definition absent_or_nonempty_string (v : value) : Prop :=
  match v with
  | Undefined => True
  | Str (_ :: _) => True
  | _ => False
  end.

(** A code unit that lower-cases to the first letter of a word of
    [allowedPriorities]. *)
Definition priority_initial (c : N) : bool :=
  (lower_unit c =? 117) || (lower_unit c =? 109) || (lower_unit c =? 108).

(** A priority value whose printed form cannot be a word of
    [allowedPriorities]: absent, [null], a boolean, a number, a plain
    object, or a string that does not lower-case to one of the words. *)
Definition plainly_invalid (p : value) : Prop :=
  match p with
  | Undefined | Null | Bool _ | Num _ | Obj _ => True
  | Str s => includes allowedPriorities (toLowerCase s) = false
  | Arr _ => False
  end.

(** [0 <= x <= 100], read on the real number a binary64 value stands for
    ([m * 2^e] for a finite one). *)
Definition within_0_100 (x : number) : Prop :=
  match x with
  | S754_zero _ => True
  | S754_finite false m e =>
      (0 <= Z.pos m * 2 ^ Z.max e 0 <= 100 * 2 ^ Z.max (- e) 0)%Z
  | _ => False
  end.

(** No NaN inside a value: [JSON.parse] builds only such values. *)
Fixpoint nan_free (v : value) : bool :=
  match v with
  | Num S754_nan => false
  | Arr items => forallb nan_free items
  | Obj props => forallb (λ kv, nan_free (snd kv)) props
  | _ => true
  end.

(** [x < 0] and [100 < x], read the same way. *)
Definition below_0 (x : number) : Prop :=
  match x with
  | S754_infinity true | S754_finite true _ _ => True
  | _ => False
  end.

Definition above_100 (x : number) : Prop :=
  match x with
  | S754_infinity false => True
  | S754_finite false m e =>
      (100 * 2 ^ Z.max (- e) 0 < Z.pos m * 2 ^ Z.max e 0)%Z
  | _ => False
  end.

(** ** The span [extractJSON] parses, in words

    A span runs from the earliest opening bracket to the last closing
    bracket of the same kind, when that one comes later; of the brace span
    and the square-bracket span the one that starts earlier is taken. *)

Fixpoint first_index (c : N) (s : jsstring) : option nat :=
  match s with
  | [] => None
  | x :: s' => if x =? c then Some O else S <$> first_index c s'
  end.

Fixpoint last_index (c : N) (s : jsstring) : option nat :=
  match s with
  | [] => None
  | x :: s' =>
      match last_index c s' with
      | Some j => Some (S j)
      | None => if x =? c then Some O else None
      end
  end.

(** Positions of the first [open] and of the last [close], the second
    after the first. *)
Definition bracket_span (open close : N) (text : jsstring) : option (nat * nat) :=
  match first_index open text, last_index close text with
  | Some i, Some j => if (i <? j)%nat then Some (i, j) else None
  | _, _ => None
  end.

(** The characters of [text] from position [i] through position [j]. *)
Definition cut (text : jsstring) (span : nat * nat) : jsstring :=
  take (S (snd span) - fst span) (drop (fst span) text).

(** A span, one position to the right. *)
Definition shift (span : nat * nat) : nat * nat := (S (fst span), S (snd span)).

Definition span_in_words (text : jsstring) : option jsstring :=
  match bracket_span lbrace rbrace text, bracket_span lbracket rbracket text with
  | Some a, Some b => Some (cut text (if (fst a <? fst b)%nat then a else b))
  | Some a, None => Some (cut text a)
  | None, Some b => Some (cut text b)
  | None, None => None
  end.

(** The same span, found by one scan from the left: the earliest position
    that holds an opening bracket with a closing bracket of its kind
    somewhere after it, through the last such closing bracket. *)

Fixpoint occurs (c : N) (s : jsstring) : bool :=
  match s with
  | [] => false
  | x :: s' => (x =? c) || occurs c s'
  end.

(** The prefix of [s] that ends with the last [c] in [s]. *)
Fixpoint through_last (c : N) (s : jsstring) : jsstring :=
  match s with
  | [] => []
  | x :: s' => if occurs c s' then x :: through_last c s' else [x]
  end.

Fixpoint greedy_span (text : jsstring) : option jsstring :=
  match text with
  | [] => None
  | c :: rest =>
      if (c =? lbrace) && occurs rbrace rest then
        Some (c :: through_last rbrace rest)
      else if (c =? lbracket) && occurs rbracket rest then
        Some (c :: through_last rbracket rest)
      else greedy_span rest
  end.

(** What is left of [s] after the last [c] in it. *)
Fixpoint after_last (c : N) (s : jsstring) : option jsstring :=
  match s with
  | [] => None
  | x :: s' =>
      match after_last c s' with
      | Some rest => Some rest
      | None => if x =? c then Some s' else None
      end
  end.

(** The answer of the model used in the specification's example: a JSON
    array in a markdown fence, after a line of prose. *)
Definition fenced_example : jsstring :=
  js "Here is the result:" ++ [10] ++ js "```json" ++ [10]
  ++ js "[{" ++ [dquote] ++ js "id" ++ [dquote] ++ js ":"
  ++ [dquote] ++ js "a" ++ [dquote] ++ js "}]" ++ [10] ++ js "```".

(** Values that [toString] prints without an exception: no object with an
    own [toString] property, at any depth of arrays. *)
Fixpoint printable (v : value) : bool :=
  match v with
  | Arr items => forallb printable items
  | Obj props =>
      match own_property props (js "toString") with
      | Some _ => false
      | None => true
      end
  | _ => true
  end.

(** The elements [normalizeResults] can normalize: not [null], with a
    printable [priority], and with no [null] among the first ten
    [issues]. *)
Definition normalizable (item : value) : bool :=
  negb (nullish item)
  && printable (prop item (js "priority"))
  && match prop item (js "issues") with
     | Arr l => forallb (λ issue, negb (nullish issue)) (take 10 l)
     | _ => true
     end.

(** A model answer with one score out of range. *)
Definition score_example : jsstring :=
  js "[{" ++ [dquote] ++ js "risk_score" ++ [dquote] ++ js ":150}]".

(** ** The request to the provider *)

Definition systemInstruction : jsstring :=
  js "You are a compliance assistant specializing in CFPB consumer financial complaints."
  ++ [10]
  ++ js "Return ONLY valid JSON (no markdown, no commentary) as an array. Each element MUST have:"
  ++ [10]
  ++ js "id (string), priority (urgent|medium|low), summary (string, <= 240 chars), risk_score (0-100 number), issues (array up to 10) where each issue has text, rationale, risk_category (one of: disclosure, fair-lending, udaa, servicing, data-accuracy, fees, collections, credit-reporting, other)."
  ++ [10]
  ++ js "Prioritize 'urgent' if there are regulatory time sensitivity, potential consumer harm escalation, past due risk, or legal exposure."
  ++ [10]
  ++ js "If unsure, choose medium. Avoid hallucination" ++ [226; 8364; 8221]
  ++ js "base findings ONLY on provided complaint text.".

Definition structuredExample : value :=
  Arr [Obj
         [(js "id", Str (js "160614-000000"));
          (js "priority", Str (js "urgent"));
          (js "summary",
           Str (js "Servicer obstacles while borrower is delinquent risk foreclosure and missing loss mitigation timelines."));
          (js "risk_score", Num (number_of_Z 82));
          (js "issues",
           Arr [Obj
                  [(js "text",
                    Str (js "Problems with the mortgage servicer when you are unable to pay"));
                   (js "rationale",
                    Str (js "Indicates potential servicing rule violations (Reg X loss mitigation handling)."));
                   (js "risk_category", Str (js "servicing"))]])]].

Definition promptObject (limitedComplaints : list value) : value :=
  Obj [(js "system", Str systemInstruction);
       (js "complaints", Arr limitedComplaints)].

(** A part of a template literal: literal text, or a value that
    [JSON.stringify(_, null, 2)] prints in its place. *)
Inductive piece : Type :=
| Text (s : jsstring)
| Json (v : value).

(** The arguments of [axios.post]: the address, the body and the
    configuration. *)
Record request : Type := Request
  { url : jsstring;
    model : jsstring;
    max_tokens : N;
    messages : list (jsstring * list piece);
    temperature : number;
    x_api_key : value;
    anthropic_version : jsstring;
    content_type : jsstring;
    timeout : N }.

Definition provider_request (CLAUDE_API_KEY : value) (limitedComplaints : list value)
  : request :=
  Request
    (js "https://api.anthropic.com/v1/messages")
    (js "claude-3-opus-20240229")
    8000
    [(js "user",
      [Text (js "Example format (DO NOT explain):" ++ [10]);
       Json structuredExample;
       Text ([10; 10] ++ js "Now analyze these complaints:" ++ [10]);
       Json (promptObject limitedComplaints)])]
    (number_of_decimal false 2 (-1))
    CLAUDE_API_KEY
    (js "2023-06-01")
    (js "application/json")
    60000.

(** ** The handler with its call of the provider

    [CLAUDE_API_KEY] is the environment variable, a string or [undefined].
    [post] stands for [await axios.post(...)]: it yields the response data
    or throws.  The handler's answer comes with the requests it sent. *)
Definition handle (CLAUDE_API_KEY : value) (complaints : value)
    (post : request → outcome value) : response * list request :=
  match complaints with
  | Arr (c :: cs) =>
      if truthy CLAUDE_API_KEY then
        let limitedComplaints := take 50 (c :: cs) in
        let sent := provider_request CLAUDE_API_KEY limitedComplaints in
        (match (data ← post sent; respond data limitedComplaints) with
         | Ret r => r
         | Throw e => Response 500 (Failed (js "Analysis failed") (Some e))
         end,
         [sent])
      else
        (Response 500 (Failed (js "CLAUDE_API_KEY not configured on server.") None), [])
  | _ => (Response 400 (Failed (js "Complaints (non-empty array) required.") None), [])
  end.

(** ** [GET /health] *)

Record health_report : Type := HealthReport
  { ok : bool; service : jsstring; hasKey : bool }.

Definition health (CLAUDE_API_KEY : value) : health_report :=
  HealthReport true (js "claude-complaint-analysis") (truthy CLAUDE_API_KEY).

(** ** Further notions used to state properties *)

(** The properties [normalizeResults] reads on an element. *)
Definition item_keys : list jsstring :=
  [js "id"; js "priority"; js "summary"; js "risk_score"; js "issues"].

(** The properties it reads on an issue. *)
Definition issue_keys : list jsstring :=
  [js "text"; js "rationale"; js "reason"; js "risk_category"; js "category"].

(** An issue as the prompt asks for it: [text] a string, [rationale] and
    [risk_category] non-empty strings. *)
Definition conforming_issue (issue : value) : bool :=
  negb (nullish issue)
  && is_string (prop issue (js "text"))
  && is_string (prop issue (js "rationale")) && truthy (prop issue (js "rationale"))
  && is_string (prop issue (js "risk_category"))
  && truthy (prop issue (js "risk_category")).

(** An element as the prompt asks for it. *)
Definition conforming (item : value) : bool :=
  negb (nullish item)
  && is_string (prop item (js "id")) && truthy (prop item (js "id"))
  && match prop item (js "priority") with
     | Str p => includes allowedPriorities p
     | _ => false
     end
  && is_string (prop item (js "summary"))
  && match prop item (js "risk_score") with
     | Num n =>
         match number_compare (number_of_Z 0) n, number_compare n (number_of_Z 100) with
         | Some (Lt | Eq), Some (Lt | Eq) => true
         | _, _ => false
         end
     | _ => false
     end
  && match prop item (js "issues") with
     | Arr l => (length l <=? 10)%nat && forallb conforming_issue l
     | _ => false
     end.

(** The issue the normalizer builds from a conforming one. *)
Definition issue_of (issue : value) : Issue.t :=
  Issue.mk (prop issue (js "text")) (prop issue (js "rationale"))
           (prop issue (js "risk_category")).

(** The value of [response.data?.content?.[0]?.text]. *)
Definition provider_text (data : value) : value :=
  get_opt (first_opt (get_opt data (js "content"))) (js "text").

(** A text without opening braces and brackets. *)
Definition no_opener (s : jsstring) : bool :=
  negb (occurs lbrace s) && negb (occurs lbracket s).

(** The closing bracket of an opening one. *)
Definition closer (open : N) : N :=
  if open =? lbrace then rbrace else rbracket.

Definition is_opener (c : N) : bool := (c =? lbrace) || (c =? lbracket).

(** A request body the handler accepts: a non-empty array. *)
Definition is_batch (complaints : value) : bool :=
  match complaints with
  | Arr (_ :: _) => true
  | _ => false
  end.

(** The elements of an array. *)
Definition elements (v : value) : list value :=
  match v with
  | Arr items => items
  | _ => []
  end.


(** What [extractJSON] can return: [null], an array or an object. *)
Definition null_or_container (v : value) : bool :=
  match v with
  | Null | Arr _ | Obj _ => true
  | _ => false
  end.
(** * Properties *)

(** ** The exception monad and [map] *)

Lemma Ret_bind {A B : Type} (a : A) (f : A → outcome B) : Ret a ≫= f = f a.
Proof. reflexivity. Qed.

Lemma Throw_bind {A B : Type} (e : exn) (f : A → outcome B) : Throw e ≫= f = Throw e.
Proof. reflexivity. Qed.

Lemma bind_Ret {A B : Type} (m : outcome A) (f : A → outcome B) (b : B) :
  m ≫= f = Ret b → ∃ a, m = Ret a ∧ f a = Ret b.
Proof. destruct m as [a|e]; simpl; [eauto | discriminate]. Qed.

Lemma map_from_length {A B : Type} (f : A → nat → outcome B) (l : list A) :
  ∀ i out, map_from f i l = Ret out → length out = length l.
Proof.
  induction l as [|x l IH]; intros i out H; simpl in H.
  - by inversion H.
  - apply bind_Ret in H as (y & _ & H).
    apply bind_Ret in H as (ys & Hys & H).
    inversion H; subst. simpl. f_equal. eauto.
Qed.

Lemma map_from_lookup {A B : Type} (f : A → nat → outcome B) (l : list A) :
  ∀ i out j y,
    map_from f i l = Ret out → out !! j = Some y →
    ∃ x, l !! j = Some x ∧ f x (i + j)%nat = Ret y.
Proof.
  induction l as [|x l IH]; intros i out j y H Hj; simpl in H.
  - inversion H; subst. by rewrite lookup_nil in Hj.
  - apply bind_Ret in H as (y0 & Hy0 & H).
    apply bind_Ret in H as (ys & Hys & H).
    inversion H; subst. destruct j as [|j]; simpl in *.
    + inversion Hj; subst. exists x. by rewrite Nat.add_0_r.
    + destruct (IH _ _ _ _ Hys Hj) as (x' & Hx' & Hf).
      exists x'. split; [done|]. by rewrite Nat.add_succ_r.
Qed.

Lemma map_from_lookup_total {A B : Type} (f : A → nat → outcome B) (l : list A) :
  ∀ i out j x,
    map_from f i l = Ret out → l !! j = Some x →
    ∃ y, out !! j = Some y ∧ f x (i + j)%nat = Ret y.
Proof.
  intros i out j x H Hj.
  assert (Hlen := map_from_length _ _ _ _ H).
  destruct (out !! j) as [y|] eqn:Hy.
  - destruct (map_from_lookup _ _ _ _ _ _ H Hy) as (x' & Hx' & Hf).
    exists y. split; [done|]. congruence.
  - apply lookup_ge_None in Hy. apply lookup_lt_Some in Hj. lia.
Qed.

(** ** Reading properties *)

Lemma get_prop v k : nullish v = false → get v k = Ret (prop v k).
Proof. by destruct v. Qed.

Lemma get_nullish v k : nullish v = true → get v k = Throw TypeError.
Proof. by destruct v. Qed.

Lemma or_else_Ret a b : Ret a ||> Ret b = Ret (or_value a b).
Proof. unfold or_else, or_value. simpl. by destruct (truthy a). Qed.

Lemma or_value_assoc a b c : or_value (or_value a b) c = or_value a (or_value b c).
Proof. unfold or_value. destruct (truthy a) eqn:Ha; by rewrite ?Ha. Qed.

(** ** One element of the model's array *)

Ltac fields :=
  cbn [Result.id Result.priority Result.summary Result.risk_score
       Result.issues Result.raw Issue.text Issue.rationale Issue.risk_category].

Lemma base_of_not_nullish orig idx : nullish (base_of orig idx) = false.
Proof.
  unfold base_of, or_value.
  destruct (truthy (at_index orig idx)) eqn:E; [|done].
  by destruct (at_index orig idx).
Qed.

Lemma normalizeIssue_Ret issue y :
  normalizeIssue issue = Ret y →
  nullish issue = false ∧
  y = Issue.mk
        (or_value (prop issue (js "text")) (Str []))
        (or_value (or_value (prop issue (js "rationale")) (prop issue (js "reason"))) (Str []))
        (or_value (or_value (prop issue (js "risk_category")) (prop issue (js "category"))) Null).
Proof.
  intros H. destruct (nullish issue) eqn:E.
  - unfold normalizeIssue in H. rewrite !(get_nullish _ _ E) in H. unfold or_else in H. simpl in H. discriminate.
  - split; [done|]. unfold normalizeIssue in H.
    rewrite !(get_prop _ _ E), !or_else_Ret, !Ret_bind in H. by injection H as <-.
Qed.

Lemma normalizeIssue_total issue :
  nullish issue = false → ∃ y, normalizeIssue issue = Ret y.
Proof.
  intros E. unfold normalizeIssue.
  rewrite !(get_prop _ _ E), !or_else_Ret, !Ret_bind. eauto.
Qed.

Lemma normalizeItem_Ret orig item idx r :
  normalizeItem orig item idx = Ret r →
  nullish item = false ∧
  ∃ s issues',
    toString (or_value (prop item (js "priority")) (Str [])) = Ret s ∧
    match prop item (js "issues") with
    | Arr l => map_from (λ issue _, normalizeIssue issue) 0 (take 10 l)
    | _ => Ret []
    end = Ret issues' ∧
    r = Result.mk
          (or_value (prop item (js "id")) (fallback_id orig idx))
          (if includes allowedPriorities (toLowerCase s) then toLowerCase s else js "medium")
          (or_value (prop item (js "summary")) (Str []))
          (match prop item (js "risk_score") with
           | Num n => Num (clamp n)
           | _ => Null
           end)
          issues'
          item.
Proof.
  intros H. destruct (nullish item) eqn:E.
  - unfold normalizeItem in H. rewrite or_else_Ret, Ret_bind in H.
    rewrite !(get_nullish _ _ E) in H. unfold or_else in H.
    rewrite !Throw_bind in H. discriminate.
  - split; [done|]. unfold normalizeItem in H.
    rewrite or_else_Ret, Ret_bind in H. fold (base_of orig idx) in H.
    rewrite !(get_prop _ _ E), !(get_prop _ _ (base_of_not_nullish orig idx)) in H.
    rewrite !or_else_Ret, Ret_bind in H.
    apply bind_Ret in H as (s & Hs & H).
    rewrite !Ret_bind in H.
    apply bind_Ret in H as (iss & Hiss & H).
    exists s, iss. repeat split; [done|done|].
    injection H as <-. unfold fallback_id. by rewrite !or_value_assoc.
Qed.

Lemma normalizeResults_lookup orig items out i r :
  normalizeResults (Arr items) orig = Ret out → out !! i = Some r →
  ∃ item, items !! i = Some item ∧ normalizeItem orig item i = Ret r.
Proof.
  intros H Hr. simpl in H.
  destruct (map_from_lookup _ _ _ _ _ _ H Hr) as (x & Hx & Hf). eauto.
Qed.

(** ** When the normalizer returns *)

Lemma value_ind' (P : value → Prop) :
  P Undefined → P Null → (∀ b, P (Bool b)) → (∀ n, P (Num n)) → (∀ s, P (Str s)) →
  (∀ items, Forall P items → P (Arr items)) →
  (∀ props, P (Obj props)) →
  ∀ v, P v.
Proof.
  intros HU HN HB HNum HS HA HO.
  refine (fix IH (v : value) : P v :=
            match v with
            | Undefined => HU
            | Null => HN
            | Bool b => HB b
            | Num n => HNum n
            | Str s => HS s
            | Arr items =>
                HA items
                  ((fix go (l : list value) : Forall P l :=
                      match l with
                      | [] => Forall_nil_2 P
                      | x :: l' => Forall_cons_2 P x l' (IH x) (go l')
                      end) items)
            | Obj props => HO props
            end).
Qed.

Lemma ToString_printable v :
  (∃ s, ToString v = Ret s) ↔ printable v = true.
Proof.
  induction v as [| |b|n|s|items IH|props] using value_ind';
    try (split; [done|intros _; eexists; reflexivity]).
  - change (printable (Arr items)) with (forallb printable items).
    change (ToString (Arr items)) with
      ((fix join (l : list value) : outcome jsstring :=
          match l with
          | [] => Ret []
          | x :: l' =>
              s ← match x with
                  | Undefined | Null => Ret []
                  | _ => ToString x
                  end;
              match l' with
              | [] => Ret s
              | _ => r ← join l'; Ret (s ++ 44 :: r)
              end
          end) items).
    induction IH as [|x l Hx Hl IHl]; [split; [done|by eexists]|].
    cbn [forallb]. rewrite andb_true_iff, <- Hx, <- IHl. clear Hx IHl Hl.
    set (join := fix join (l : list value) : outcome jsstring := _).
    assert (Hx : (∃ s, match x with
                       | Undefined | Null => Ret []
                       | _ => ToString x
                       end = Ret s) ↔ ∃ s, ToString x = Ret s).
    { destruct x; split; intros; try done; by eexists. }
    rewrite <- Hx. clear Hx.
    destruct (match x with Undefined | Null => Ret [] | _ => ToString x end)
      as [s|e]; rewrite ?Ret_bind, ?Throw_bind.
    + destruct l as [|y l'].
      * split; [intros _; split; by eexists|by eexists].
      * destruct (join (y :: l')) as [r|e]; rewrite ?Ret_bind, ?Throw_bind.
        -- split; [intros _; split; by eexists|by eexists].
        -- split; [by intros [? ?]|by intros [_ [? ?]]].
    + split; [by intros [? ?]|by intros [[? ?] _]].
  - simpl. destruct (own_property props (js "toString")).
    + split; [by intros [? ?]|done].
    + split; [done|by eexists].
Qed.

Lemma map_from_returns {A B : Type} (f : A → nat → outcome B) (l : list A) :
  ∀ i, (∃ out, map_from f i l = Ret out) ↔
       ∀ j x, l !! j = Some x → ∃ y, f x (i + j)%nat = Ret y.
Proof.
  intros i. split.
  - intros [out H] j x Hj.
    destruct (map_from_lookup_total _ _ _ _ _ _ H Hj) as (y & _ & Hy). eauto.
  - revert i. induction l as [|x l IH]; intros i H; [by eexists|].
    destruct (H 0%nat x eq_refl) as [y Hy]. rewrite Nat.add_0_r in Hy.
    destruct (IH (S i)) as [ys Hys].
    { intros j x' Hj. rewrite Nat.add_succ_l, <- Nat.add_succ_r. by apply H. }
    exists (y :: ys). simpl. by rewrite Hy, Ret_bind, Hys, Ret_bind.
Qed.

Lemma normalizeIssue_returns issue :
  (∃ y, normalizeIssue issue = Ret y) ↔ nullish issue = false.
Proof.
  split.
  - by intros [y [E _]%normalizeIssue_Ret].
  - apply normalizeIssue_total.
Qed.

Lemma toString_returns p :
  (∃ s, toString (or_value p (Str [])) = Ret s) ↔ printable p = true.
Proof.
  unfold or_value. destruct (truthy p) eqn:Ht.
  - rewrite <- ToString_printable. by destruct p.
  - split; [intros _|intros _; by eexists].
    destruct p as [| |b|n|s| |]; try done.
Qed.

Lemma issues_return v :
  (∃ ys, match v with
         | Arr l => map_from (λ issue _, normalizeIssue issue) 0 (take 10 l)
         | _ => Ret []
         end = Ret ys) ↔
  match v with
  | Arr l => forallb (λ issue, negb (nullish issue)) (take 10 l)
  | _ => true
  end = true.
Proof.
  destruct v as [| | | | |l|]; try (split; [done|by eexists]).
  rewrite map_from_returns, forallb_forall. split.
  - intros H x Hx. apply list_elem_of_In, list_elem_of_lookup in Hx as [j Hj].
    apply H, normalizeIssue_returns in Hj. by rewrite Hj.
  - intros H j x Hj. apply normalizeIssue_returns.
    apply list_elem_of_lookup_2, list_elem_of_In, H in Hj.
    by destruct (nullish x).
Qed.

Lemma normalizeItem_returns orig item idx :
  (∃ r, normalizeItem orig item idx = Ret r) ↔ normalizable item = true.
Proof.
  unfold normalizable. rewrite !andb_true_iff, negb_true_iff.
  rewrite <- toString_returns, <- issues_return. split.
  - intros [r (E & s & iss & Hs & Hiss & _)%normalizeItem_Ret]. eauto.
  - intros [[E [s Hs]] [iss Hiss]].
    unfold normalizeItem.
    rewrite or_else_Ret, Ret_bind. fold (base_of orig idx).
    rewrite !(get_prop _ _ E), !(get_prop _ _ (base_of_not_nullish orig idx)).
    rewrite !or_else_Ret, Ret_bind, Hs, !Ret_bind, Hiss, Ret_bind. by eexists.
Qed.

(** [normalizeResults] returns on an array exactly when every element is
    one it can normalize. *)
Lemma normalizeResults_returns orig items :
  (∃ out, normalizeResults (Arr items) orig = Ret out) ↔
  forallb normalizable items = true.
Proof.
  simpl. rewrite map_from_returns, forallb_forall. split.
  - intros H x Hx. apply list_elem_of_In, list_elem_of_lookup in Hx as [j Hj].
    by apply H, normalizeItem_returns in Hj.
  - intros H j x Hj. apply normalizeItem_returns.
    by apply list_elem_of_lookup_2, list_elem_of_In, H in Hj.
Qed.

Lemma normalizeResults_item orig items out i item r :
  normalizeResults (Arr items) orig = Ret out →
  items !! i = Some item → out !! i = Some r →
  normalizeItem orig item i = Ret r.
Proof.
  intros H Hi Hr.
  destruct (normalizeResults_lookup _ _ _ _ _ H Hr) as (item' & Hi' & Hn).
  congruence.
Qed.

(** ** Totality of the normalizer *)

(** C1: the claim says [normalizeResults] never raises on an array,
    whatever its elements.  The code raises [TypeError] on an array that
    holds [null] (the read [item.priority]), on an element whose [priority]
    is an object with a [toString] property (the call [.toString()]), and
    on an element whose [issues] hold [null] (the read [issue.text]).  The
    model's answer [[null]] reaches the first case, and the handler answers
    it with status 500. *)
Theorem normalizeResults_raises :
  normalizeResults (Arr [Null]) [Obj []] = Throw TypeError ∧
  normalizeResults
    (Arr [Obj [(js "priority", Obj [(js "toString", Null)])]]) [Obj []]
  = Throw TypeError ∧
  normalizeResults (Arr [Obj [(js "issues", Arr [Null])]]) [Obj []]
  = Throw TypeError ∧
  extractJSON (Str (js "[null]")) = Arr [Null] ∧
  analyze_complaints true (Arr [Obj []])
    (Ret (Obj [(js "content", Arr [Obj [(js "text", Str (js "[null]"))]])]))
  = Response 500 (Failed (js "Analysis failed") (Some TypeError)).
Proof. repeat split; by vm_compute. Qed.

(** ** Length and position *)

(** C2 (amended): when the parsed output is an array and the normalizer
    returns, the results are as many as the elements of the parsed array,
    whatever the length of the input batch, and the [raw] field of the
    result at an index is the model's element at that index. *)
Theorem normalizeResults_length_raw orig items out :
  normalizeResults (Arr items) orig = Ret out →
  length out = length items ∧
  (∀ i r, out !! i = Some r → items !! i = Some (Result.raw r)) ∧
  (∀ i item, items !! i = Some item →
             ∃ r, out !! i = Some r ∧ Result.raw r = item).
Proof.
  intros H. split; [|split].
  - simpl in H. by eapply map_from_length.
  - intros i r Hr.
    destruct (normalizeResults_lookup _ _ _ _ _ H Hr) as (item & Hi & Hn).
    apply normalizeItem_Ret in Hn as (_ & s & iss & _ & _ & ->). done.
  - intros i item Hi. simpl in H.
    destruct (map_from_lookup_total _ _ _ _ _ _ H Hi) as (r & Hr & Hn).
    exists r. split; [done|].
    apply normalizeItem_Ret in Hn as (_ & s & iss & _ & _ & ->). done.
Qed.

Lemma normalizeResults_length_raw_witness :
  normalizeResults (Arr [Obj []]) [Obj []; Obj []]
  = Ret [Result.mk (Str (js "row-0")) (js "medium") (Str []) Null [] (Obj [])] ∧
  length [Result.mk (Str (js "row-0")) (js "medium") (Str []) Null [] (Obj [])]
  = length [Obj []].
Proof.
  split; [reflexivity|].
  exact (proj1 (normalizeResults_length_raw
                  [Obj []; Obj []] [Obj []]
                  [Result.mk (Str (js "row-0")) (js "medium") (Str []) Null [] (Obj [])]
                  eq_refl)).
Defined.

(** C2, as stated, fails: one element for a batch of two complaints gives
    one result. *)
Lemma normalizeResults_length_not_batch :
  ∃ out, normalizeResults (Arr [Obj []]) [Obj []; Obj []] = Ret out ∧
         length out = 1%nat ∧ length [Obj []; Obj []] = 2%nat.
Proof. eexists. repeat split; reflexivity. Qed.

(** ** Summary *)

(** C4 (amended): the normalized summary is the element's [summary]
    field as it is when that field is truthy, and the empty string when it
    is absent, [null] or another falsy value; so a string is copied
    verbatim, and the output never holds [null] or [undefined].  A truthy
    value that is not a string is copied too. *)
Theorem summary_normalized orig items out i item r :
  normalizeResults (Arr items) orig = Ret out →
  items !! i = Some item → out !! i = Some r →
  get item (js "summary") = Ret (prop item (js "summary")) ∧
  Result.summary r = or_value (prop item (js "summary")) (Str []) ∧
  (∀ s, prop item (js "summary") = Str s → Result.summary r = Str s) ∧
  (truthy (prop item (js "summary")) = true →
   Result.summary r = prop item (js "summary")) ∧
  (truthy (prop item (js "summary")) = false → Result.summary r = Str []) ∧
  nullish (Result.summary r) = false.
Proof.
  intros H Hi Hr.
  apply (normalizeResults_item _ _ _ _ _ _ H Hi) in Hr.
  apply normalizeItem_Ret in Hr as (E & s & iss & _ & _ & ->). fields.
  split; [by apply get_prop|]. split; [done|].
  unfold or_value. repeat split.
  - intros s' ->. by destruct s'.
  - by intros ->.
  - by intros ->.
  - destruct (truthy (prop item (js "summary"))) eqn:Ht; [|done].
    by destruct (prop item (js "summary")).
Qed.

Lemma summary_normalized_witness :
  normalizeResults (Arr [Obj [(js "summary", Str (js "late fee"))]]) []
  = Ret [Result.mk (Str (js "row-0")) (js "medium") (Str (js "late fee")) Null []
           (Obj [(js "summary", Str (js "late fee"))])] ∧
  Result.summary
    (Result.mk (Str (js "row-0")) (js "medium") (Str (js "late fee")) Null []
       (Obj [(js "summary", Str (js "late fee"))]))
  = Str (js "late fee").
Proof.
  split; [reflexivity|].
  refine (proj1 (proj2 (proj2 (summary_normalized
    [] [Obj [(js "summary", Str (js "late fee"))]]
    [Result.mk (Str (js "row-0")) (js "medium") (Str (js "late fee")) Null []
       (Obj [(js "summary", Str (js "late fee"))])]
    0%nat (Obj [(js "summary", Str (js "late fee"))]) _ eq_refl eq_refl eq_refl)))
    (js "late fee") eq_refl).
Defined.

(** C4, as stated, fails: a numeric summary is copied, and is not a
    string. *)
Lemma summary_number_kept :
  ∃ r, normalizeResults (Arr [Obj [(js "summary", Num (number_of_Z 42))]]) [] = Ret [r] ∧
       Result.summary r = Num (number_of_Z 42) ∧
       is_string (Result.summary r) = false.
Proof. eexists. repeat split; reflexivity. Qed.

(** ** Identifier *)

Lemma js_row_nonempty (n : N) : js "row-" ++ decimal n ≠ [].
Proof. discriminate. Qed.

(** C9 (amended): a falsy [id] on the model's element (absent, [null],
    empty string, [0]) sends the normalizer down the chain [input[i].id],
    [input[i].complaintId], [row-<i>], and a truthy one is kept as it is;
    so the normalized id is a non-empty string whenever the model's [id]
    is falsy or a string and the [id] and [complaintId] of the input row
    are non-empty strings or absent. *)
Theorem id_fallback_chain orig items out i item r :
  normalizeResults (Arr items) orig = Ret out →
  items !! i = Some item → out !! i = Some r →
  let base := base_of orig i in
  let id := prop item (js "id") in
  get item (js "id") = Ret id ∧
  get base (js "id") = Ret (prop base (js "id")) ∧
  get base (js "complaintId") = Ret (prop base (js "complaintId")) ∧
  (truthy id = true → Result.id r = id) ∧
  (truthy id = false →
   Result.id r =
     or_value (or_value (prop base (js "id")) (prop base (js "complaintId")))
              (Str (js "row-" ++ decimal (N.of_nat i)))) ∧
  (truthy id = false ∨ is_string id = true →
   absent_or_nonempty_string (prop base (js "id")) →
   absent_or_nonempty_string (prop base (js "complaintId")) →
   ∃ s, Result.id r = Str s ∧ s ≠ []).
Proof.
  intros H Hi Hr base id.
  apply (normalizeResults_item _ _ _ _ _ _ H Hi) in Hr.
  apply normalizeItem_Ret in Hr as (E & s & iss & _ & _ & ->). fields.
  fold id. unfold fallback_id. fold base.
  split; [by apply get_prop|].
  split; [apply get_prop, base_of_not_nullish|].
  split; [apply get_prop, base_of_not_nullish|].
  split; [unfold or_value; by intros ->|].
  split; [unfold or_value; by intros ->|].
  intros Hid Hb1 Hb2.
  assert (Hfb : ∃ s, or_value (or_value (prop base (js "id")) (prop base (js "complaintId")))
                       (Str (js "row-" ++ decimal (N.of_nat i))) = Str s ∧ s ≠ []).
  { destruct (prop base (js "id")) as [| | | |[|c s1]| |]; try done;
      destruct (prop base (js "complaintId")) as [| | | |[|c' s2]| |]; try done;
      unfold or_value; simpl; eexists; (split; [reflexivity|]);
      first [discriminate | apply js_row_nonempty]. }
  unfold or_value at 1. destruct (truthy id) eqn:Ht; [|done].
  destruct Hid as [Hid|Hid]; [done|].
  destruct id as [| | | |[|c s1]| |]; try done. eexists; split; [reflexivity|discriminate].
Qed.

Lemma id_fallback_chain_witness :
  normalizeResults (Arr [Obj [(js "id", Str [])]]) [Obj [(js "complaintId", Str (js "C-7"))]]
  = Ret [Result.mk (Str (js "C-7")) (js "medium") (Str []) Null []
           (Obj [(js "id", Str [])])] ∧
  ∃ s, Str (js "C-7") = Str s ∧ s ≠ [].
Proof.
  split; [reflexivity|].
  refine (proj2 (proj2 (proj2 (proj2 (proj2 (id_fallback_chain
    [Obj [(js "complaintId", Str (js "C-7"))]]
    [Obj [(js "id", Str [])]]
    [Result.mk (Str (js "C-7")) (js "medium") (Str []) Null [] (Obj [(js "id", Str [])])]
    0%nat (Obj [(js "id", Str [])]) _ eq_refl eq_refl eq_refl))))) _ _ _).
  - left. reflexivity.
  - exact I.
  - exact I.
Defined.

(** C9, as stated, fails: a numeric [id] on the model's element is truthy
    and is kept, although the input row has a non-empty string [id]. *)
Lemma id_number_kept :
  ∃ r, normalizeResults (Arr [Obj [(js "id", Num (number_of_Z 42))]])
                        [Obj [(js "id", Str (js "A1"))]] = Ret [r] ∧
       Result.id r = Num (number_of_Z 42) ∧
       is_string (Result.id r) = false ∧
       absent_or_nonempty_string
         (prop (base_of [Obj [(js "id", Str (js "A1"))]] 0) (js "id")) ∧
       absent_or_nonempty_string
         (prop (base_of [Obj [(js "id", Str (js "A1"))]] 0) (js "complaintId")).
Proof. eexists. repeat split; reflexivity. Qed.

(** ** Issues *)

Lemma issues_of_item orig item i r :
  normalizeItem orig item i = Ret r →
  (isArray (prop item (js "issues")) = false → Result.issues r = []) ∧
  (∀ l, prop item (js "issues") = Arr l →
        length (Result.issues r) = (length l `min` 10)%nat ∧
        (∀ j y, Result.issues r !! j = Some y →
                (j < 10)%nat ∧
                ∃ issue, l !! j = Some issue ∧ normalizeIssue issue = Ret y) ∧
        (∀ j issue, l !! j = Some issue → (j < 10)%nat →
                    ∃ y, Result.issues r !! j = Some y ∧ normalizeIssue issue = Ret y)).
Proof.
  intros Hr.
  apply normalizeItem_Ret in Hr as (E & s & iss & _ & Hiss & ->). fields.
  split.
  - intros Harr. destruct (prop item (js "issues")); try done; by injection Hiss.
  - intros l Hl. rewrite Hl in Hiss.
    assert (Hlen : length iss = (length l `min` 10)%nat).
    { rewrite (map_from_length _ _ _ _ Hiss), length_take. lia. }
    split; [done|]. split.
    + intros j y Hy.
      assert (j < 10)%nat by (apply lookup_lt_Some in Hy; lia).
      split; [done|].
      destruct (map_from_lookup _ _ _ _ _ _ Hiss Hy) as (x & Hx & Hf).
      exists x. by rewrite lookup_take_lt in Hx.
    + intros j issue Hj Hlt.
      rewrite <- (lookup_take_lt l 10 j Hlt) in Hj.
      destruct (map_from_lookup_total _ _ _ _ _ _ Hiss Hj) as (y & Hy & Hf). eauto.
Qed.

(** C6: an [issues] field that is not an array gives no issues; an array
    gives the projections of its first ten entries, in order, so fifteen
    entries give exactly ten. *)
Theorem issues_capped orig items out i item r :
  normalizeResults (Arr items) orig = Ret out →
  items !! i = Some item → out !! i = Some r →
  get item (js "issues") = Ret (prop item (js "issues")) ∧
  (isArray (prop item (js "issues")) = false → Result.issues r = []) ∧
  (∀ l, prop item (js "issues") = Arr l →
        length (Result.issues r) = (length l `min` 10)%nat ∧
        (∀ j y, Result.issues r !! j = Some y →
                (j < 10)%nat ∧
                ∃ issue, l !! j = Some issue ∧ normalizeIssue issue = Ret y) ∧
        (∀ j issue, l !! j = Some issue → (j < 10)%nat →
                    ∃ y, Result.issues r !! j = Some y ∧ normalizeIssue issue = Ret y) ∧
        (length l = 15%nat → length (Result.issues r) = 10%nat)).
Proof.
  intros H Hi Hr.
  apply (normalizeResults_item _ _ _ _ _ _ H Hi) in Hr.
  destruct (issues_of_item _ _ _ _ Hr) as (Hna & Harr).
  split; [|split; [done|]].
  - apply get_prop. by apply normalizeItem_Ret in Hr as (E & _).
  - intros l Hl. destruct (Harr l Hl) as (Hlen & Hbw & Hfw).
    split; [done|]. split; [done|]. split; [done|]. intros Hl15. lia.
Qed.

(** C10: for an entry among the first ten of an element's issues, the
    [rationale] of the entry is kept when truthy and gives way to [reason]
    when falsy (the empty string included), and [category] stands in only
    when [risk_category] is falsy. *)
Theorem issue_synonyms orig items out i item r l j issue :
  normalizeResults (Arr items) orig = Ret out →
  items !! i = Some item → out !! i = Some r →
  prop item (js "issues") = Arr l → l !! j = Some issue → (j < 10)%nat →
  get issue (js "rationale") = Ret (prop issue (js "rationale")) ∧
  get issue (js "reason") = Ret (prop issue (js "reason")) ∧
  get issue (js "risk_category") = Ret (prop issue (js "risk_category")) ∧
  get issue (js "category") = Ret (prop issue (js "category")) ∧
  ∃ y, Result.issues r !! j = Some y ∧
    (truthy (prop issue (js "rationale")) = true →
     Issue.rationale y = prop issue (js "rationale")) ∧
    (truthy (prop issue (js "rationale")) = false →
     Issue.rationale y = or_value (prop issue (js "reason")) (Str [])) ∧
    (prop issue (js "rationale") = Str [] → truthy (prop issue (js "reason")) = true →
     Issue.rationale y = prop issue (js "reason")) ∧
    (truthy (prop issue (js "risk_category")) = true →
     Issue.risk_category y = prop issue (js "risk_category")) ∧
    (truthy (prop issue (js "risk_category")) = false →
     Issue.risk_category y = or_value (prop issue (js "category")) Null).
Proof.
  intros H Hi Hr Hl Hj Hlt.
  apply (normalizeResults_item _ _ _ _ _ _ H Hi) in Hr.
  destruct (issues_of_item _ _ _ _ Hr) as (_ & Harr).
  destruct (Harr l Hl) as (_ & _ & Hfw).
  destruct (Hfw j issue Hj Hlt) as (y & Hy & Hn).
  apply normalizeIssue_Ret in Hn as (E & ->).
  rewrite !(get_prop _ _ E). repeat split; try done.
  exists (Issue.mk
        (or_value (prop issue (js "text")) (Str []))
        (or_value (or_value (prop issue (js "rationale")) (prop issue (js "reason"))) (Str []))
        (or_value (or_value (prop issue (js "risk_category")) (prop issue (js "category"))) Null)).
  split; [done|]. fields. unfold or_value.
  repeat split.
  - intros Ht. by rewrite Ht, Ht.
  - intros Ht. by rewrite Ht.
  - intros Hra Hre. rewrite Hra. simpl. by rewrite Hre.
  - intros Ht. by rewrite Ht, Ht.
  - intros Ht. by rewrite Ht.
Qed.

Lemma issues_capped_witness :
  normalizeResults (Arr [Obj [(js "issues", Arr (replicate 15 (Obj [])))]]) []
  = Ret [Result.mk (Str (js "row-0")) (js "medium") (Str []) Null
           (replicate 10 (Issue.mk (Str []) (Str []) Null))
           (Obj [(js "issues", Arr (replicate 15 (Obj [])))])] ∧
  length (replicate 10 (Issue.mk (Str []) (Str []) Null)) = 10%nat.
Proof.
  split; [reflexivity|].
  exact (proj2 (proj2 (proj2 (proj2 (proj2 (issues_capped
    [] [Obj [(js "issues", Arr (replicate 15 (Obj [])))]]
    [Result.mk (Str (js "row-0")) (js "medium") (Str []) Null
           (replicate 10 (Issue.mk (Str []) (Str []) Null))
           (Obj [(js "issues", Arr (replicate 15 (Obj [])))])]
    0%nat (Obj [(js "issues", Arr (replicate 15 (Obj [])))]) _
    eq_refl eq_refl eq_refl)) (replicate 15 (Obj [])) eq_refl))) eq_refl).
Defined.

Lemma issue_synonyms_witness :
  normalizeResults
    (Arr [Obj [(js "issues",
                Arr [Obj [(js "rationale", Str []); (js "reason", Str (js "late"))]])]]) []
  = Ret [Result.mk (Str (js "row-0")) (js "medium") (Str []) Null
           [Issue.mk (Str []) (Str (js "late")) Null]
           (Obj [(js "issues",
                  Arr [Obj [(js "rationale", Str []); (js "reason", Str (js "late"))]])])] ∧
  ∃ y, [Issue.mk (Str []) (Str (js "late")) Null] !! 0%nat = Some y ∧
       Issue.rationale y = Str (js "late").
Proof.
  split; [reflexivity|].
  destruct (proj2 (proj2 (proj2 (proj2 (issue_synonyms
    []
    [Obj [(js "issues",
           Arr [Obj [(js "rationale", Str []); (js "reason", Str (js "late"))]])]]
    [Result.mk (Str (js "row-0")) (js "medium") (Str []) Null
           [Issue.mk (Str []) (Str (js "late")) Null]
           (Obj [(js "issues",
                  Arr [Obj [(js "rationale", Str []); (js "reason", Str (js "late"))]])])]
    0%nat
    (Obj [(js "issues",
           Arr [Obj [(js "rationale", Str []); (js "reason", Str (js "late"))]])])
    _
    [Obj [(js "rationale", Str []); (js "reason", Str (js "late"))]]
    0%nat
    (Obj [(js "rationale", Str []); (js "reason", Str (js "late"))])
    eq_refl eq_refl eq_refl eq_refl eq_refl (Nat.lt_0_succ 9))))))
    as (y & Hy & _ & _ & Hre & _).
  exists y. split; [exact Hy|]. exact (Hre eq_refl eq_refl).
Defined.

(** ** Priority *)

Lemma str_eqb_eq s t : str_eqb s t = true → s = t.
Proof.
  revert t. induction s as [|a s IH]; intros [|b t]; simpl; try done.
  intros [Hab Hst]%andb_prop. apply N.eqb_eq in Hab. f_equal; auto.
Qed.

Lemma includes_elem_of l s : includes l s = true → s ∈ l.
Proof.
  induction l as [|x l IH]; simpl; [done|].
  intros [H|H]%orb_prop.
  - apply str_eqb_eq in H as ->. left.
  - right. auto.
Qed.

Lemma includes_allowed_initial s :
  includes allowedPriorities (toLowerCase s) = true →
  ∃ c r, s = c :: r ∧ priority_initial c = true.
Proof.
  destruct s as [|c r]; [done|]. intros H. exists c, r. split; [done|].
  unfold priority_initial.
  unfold allowedPriorities, includes in H. cbn [toLowerCase map] in H.
  change (js "urgent") with (117 :: js "rgent") in H.
  change (js "medium") with (109 :: js "edium") in H.
  change (js "low") with (108 :: js "ow") in H.
  cbn [str_eqb] in H.
  rewrite (N.eqb_sym 117), (N.eqb_sym 109), (N.eqb_sym 108) in H.
  destruct (lower_unit c =? 117); [done|].
  destruct (lower_unit c =? 109); [done|].
  destruct (lower_unit c =? 108); done.
Qed.

Lemma digit_not_initial c : is_digit c = true → priority_initial c = false.
Proof.
  unfold is_digit, priority_initial, lower_unit.
  intros [H1 H2]%andb_prop. apply N.leb_le in H1, H2.
  destruct (65 <=? c) eqn:E; [apply N.leb_le in E; lia|]. simpl.
  repeat (apply orb_false_intro); apply N.eqb_neq; lia.
Qed.

Lemma is_digit_mod n : is_digit (48 + n mod 10) = true.
Proof.
  assert (H : n mod 10 < 10) by (apply N.mod_lt; discriminate).
  unfold is_digit. generalize dependent (n mod 10). intros d Hd.
  apply andb_true_intro. split; apply N.leb_le; lia.
Qed.

Lemma digits_fuel_head fuel : ∀ n acc,
  (∃ c r, acc = c :: r ∧ is_digit c = true) →
  ∃ c r, digits_fuel fuel n acc = c :: r ∧ is_digit c = true.
Proof.
  induction fuel as [|fuel IH]; intros n acc Hacc; simpl; [done|].
  assert (Hd : ∃ c r, 48 + n mod 10 :: acc = c :: r ∧ is_digit c = true).
  { eexists _, _. split; [reflexivity|]. apply is_digit_mod. }
  destruct (n / 10 =? 0); auto.
Qed.

Lemma decimal_head n : ∃ c r, decimal n = c :: r ∧ is_digit c = true.
Proof.
  unfold decimal. simpl.
  assert (Hd : ∃ c r, [48 + n mod 10] = c :: r ∧ is_digit c = true).
  { eexists _, _. split; [reflexivity|]. apply is_digit_mod. }
  destruct (n / 10 =? 0); [done|]. by apply digits_fuel_head.
Qed.

Lemma format_digits_head ds n :
  (∃ c r, ds = c :: r ∧ is_digit c = true) →
  ∃ c r, format_digits ds n = c :: r ∧ is_digit c = true.
Proof.
  intros (c & r & -> & Hc). unfold format_digits. cbv zeta.
  destruct ((Z.of_nat (length (c :: r)) <=? n) && (n <=? 21))%Z;
    [by eexists _, _|].
  destruct ((0 <? n) && (n <=? 21))%Z eqn:E2.
  - apply andb_prop in E2 as [E2 _]. apply Z.ltb_lt in E2.
    destruct (Z.to_nat n) as [|k] eqn:Ek; [lia|]. simpl. by eexists _, _.
  - destruct ((-6 <? n) && (n <=? 0))%Z; [by eexists _, _|].
    destruct r; by eexists _, _.
Qed.

Lemma Number_toString_initial n :
  ∃ c r, Number_toString n = c :: r ∧ priority_initial c = false.
Proof.
  destruct n as [s|s| |s m e]; unfold Number_toString.
  - by exists 48, [].
  - destruct s; [by exists 45, (js "Infinity")|by exists 73, (js "nfinity")].
  - by exists 78, (js "aN").
  - generalize (magnitude 640 m e (-324)). intros n0.
    destruct (shortest 17 m e n0 1) as [d k].
    destruct s; [by eexists 45, _|].
    destruct (format_digits_head (decimal (Z.to_N d)) k (decimal_head _))
      as (c & r & -> & Hc).
    exists c, r. split; [done|]. by apply digit_not_initial.
Qed.

Lemma initial_not_included c r :
  priority_initial c = false →
  includes allowedPriorities (toLowerCase (c :: r)) = false.
Proof.
  intros Hc.
  destruct (includes allowedPriorities (toLowerCase (c :: r))) eqn:E; [|done].
  apply includes_allowed_initial in E as (c' & r' & [= <- <-] & Hc'). congruence.
Qed.

Lemma plainly_invalid_medium p s :
  plainly_invalid p → toString (or_value p (Str [])) = Ret s →
  includes allowedPriorities (toLowerCase s) = false.
Proof.
  intros Hp Hs.
  destruct p as [| |b|n|t|l|ps]; simpl in Hp.
  - by injection Hs as <-.
  - by injection Hs as <-.
  - destruct b; by injection Hs as <-.
  - unfold or_value in Hs.
    destruct (Number_toString_initial n) as (c' & r' & Hn & Hc').
    destruct (truthy (Num n)); simpl in Hs; [|by injection Hs as <-].
    rewrite Hn in Hs. injection Hs as <-. by apply initial_not_included.
  - unfold or_value in Hs.
    destruct (truthy (Str t)) eqn:Et; simpl in Hs; injection Hs as <-; [done|].
    by destruct t.
  - done.
  - unfold or_value in Hs. simpl in Hs.
    destruct (own_property ps (js "toString")); [done|].
    by injection Hs as <-.
Qed.

(** C3 (amended): the normalized priority is always one of [urgent],
    [medium], [low].  It is the lower-cased printed form of the element's
    [priority] when that is one of the three words, so a spelling in
    another case such as [URGENT] gives the word itself; every other
    value, in particular an absent one, [null], a boolean, a number, a
    plain object or a string that does not lower-case to one of the words,
    gives [medium]. *)
Theorem priority_normalized orig items out i item r :
  normalizeResults (Arr items) orig = Ret out →
  items !! i = Some item → out !! i = Some r →
  let p := prop item (js "priority") in
  get item (js "priority") = Ret p ∧
  Result.priority r ∈ allowedPriorities ∧
  (∃ s, toString (or_value p (Str [])) = Ret s ∧
        Result.priority r =
          if includes allowedPriorities (toLowerCase s)
          then toLowerCase s else js "medium") ∧
  (plainly_invalid p → Result.priority r = js "medium").
Proof.
  intros H Hi Hr p.
  apply (normalizeResults_item _ _ _ _ _ _ H Hi) in Hr.
  apply normalizeItem_Ret in Hr as (E & s & iss & Hs & _ & ->). fields.
  fold p in Hs.
  split; [by apply get_prop|]. split; [|split].
  - destruct (includes allowedPriorities (toLowerCase s)) eqn:Hin.
    + by apply includes_elem_of.
    + apply includes_elem_of. reflexivity.
  - by exists s.
  - intros Hp. by rewrite (plainly_invalid_medium p s Hp Hs).
Qed.

Lemma priority_normalized_witness :
  normalizeResults (Arr [Obj [(js "priority", Num (number_of_Z 3))]]) []
  = Ret [Result.mk (Str (js "row-0")) (js "medium") (Str []) Null []
           (Obj [(js "priority", Num (number_of_Z 3))])] ∧
  js "medium" ∈ allowedPriorities.
Proof.
  split; [reflexivity|].
  exact (proj1 (proj2 (priority_normalized
    [] [Obj [(js "priority", Num (number_of_Z 3))]]
    [Result.mk (Str (js "row-0")) (js "medium") (Str []) Null []
           (Obj [(js "priority", Num (number_of_Z 3))])]
    0%nat (Obj [(js "priority", Num (number_of_Z 3))]) _ eq_refl eq_refl eq_refl))).
Defined.

(** C3, as stated, fails: [URGENT] is not one of the three words, and it
    normalizes to [urgent], not to [medium]; so does the one-element array
    that holds it. *)
Lemma priority_wrong_case_kept :
  ∃ r1 r2,
    normalizeResults
      (Arr [Obj [(js "priority", Str (js "URGENT"))];
            Obj [(js "priority", Arr [Str (js "URGENT")])]]) [] = Ret [r1; r2] ∧
    includes allowedPriorities (js "URGENT") = false ∧
    Result.priority r1 = js "urgent" ∧
    Result.priority r2 = js "urgent" ∧
    js "urgent" ≠ js "medium".
Proof. eexists _, _. repeat split; try reflexivity. discriminate. Qed.

(** ** Risk score *)

Lemma number_of_Z_0 : number_of_Z 0 = S754_zero false.
Proof. reflexivity. Qed.

Lemma number_of_Z_100 : number_of_Z 100 = S754_finite false 7036874417766400 (-46).
Proof. reflexivity. Qed.

Lemma clamp_finite m e :
  clamp (S754_finite false m e) =
    match (7036874417766400 * 2 ^ (-46 - Z.min (-46) e) ?= Z.pos m * 2 ^ (e - Z.min (-46) e))%Z with
    | Gt => S754_finite false m e
    | _ => S754_finite false 7036874417766400 (-46)
    end.
Proof.
  unfold clamp. rewrite number_of_Z_0, number_of_Z_100.
  assert (Hmax : Math_max (S754_zero false) (S754_finite false m e) = S754_finite false m e).
  { unfold Math_max, number_compare, signed.
    assert ((0 * 2 ^ (0 - Z.min 0 e) ?= Z.pos m * 2 ^ (e - Z.min 0 e))%Z = Lt) as ->;
      [|done].
    apply Z.compare_lt_iff. rewrite Z.mul_0_l.
    apply Z.mul_pos_pos; [lia|]. apply Z.pow_pos_nonneg; lia. }
  rewrite Hmax. unfold Math_min, number_compare, signed.
  by destruct (_ ?= _)%Z.
Qed.

(** [m * 2^e <= 100] on a common grid. *)
Lemma compare_100 m e :
  (Z.pos m * 2 ^ Z.max e 0 <= 100 * 2 ^ Z.max (- e) 0 ↔
   Z.pos m * 2 ^ (e - Z.min (-46) e) <= 7036874417766400 * 2 ^ (-46 - Z.min (-46) e))%Z.
Proof.
  change 7036874417766400%Z with (100 * 2 ^ 46)%Z.
  destruct (Z.le_gt_cases 0 e) as [He|He].
  - rewrite (Z.max_l e), (Z.max_r (- e)), (Z.min_l (-46)) by lia.
    replace (e - -46)%Z with (e + 46)%Z by lia.
    rewrite Z.pow_add_r by lia. rewrite Z.sub_diag, !Z.pow_0_r.
    assert (0 < 2 ^ 46)%Z by lia. nia.
  - rewrite (Z.max_r e), (Z.max_l (- e)) by lia. rewrite Z.pow_0_r, Z.mul_1_r.
    destruct (Z.le_gt_cases (-46) e) as [He'|He'].
    + rewrite (Z.min_l (-46)) by lia. rewrite Z.sub_diag, Z.pow_0_r.
      assert (Hp : (2 ^ 46 = 2 ^ (- e) * 2 ^ (e - -46))%Z).
      { rewrite <- Z.pow_add_r by lia. f_equal. lia. }
      rewrite Hp.
      assert (0 < 2 ^ (e - -46))%Z by (apply Z.pow_pos_nonneg; lia). nia.
    + rewrite (Z.min_r (-46)) by lia. rewrite Z.sub_diag, Z.pow_0_r.
      assert (Hp : (2 ^ (- e) = 2 ^ 46 * 2 ^ (-46 - e))%Z).
      { rewrite <- Z.pow_add_r by lia. f_equal. lia. }
      rewrite Hp. lia.
Qed.

Lemma clamp_negative m e : clamp (S754_finite true m e) = S754_zero false.
Proof.
  unfold clamp. rewrite number_of_Z_0, number_of_Z_100.
  assert (Hmax : Math_max (S754_zero false) (S754_finite true m e) = S754_zero false).
  { unfold Math_max, number_compare, signed.
    assert ((0 * 2 ^ (0 - Z.min 0 e) ?= Z.neg m * 2 ^ (e - Z.min 0 e))%Z = Gt) as ->;
      [|done].
    apply Z.compare_gt_iff. rewrite Z.mul_0_l.
    apply Z.mul_neg_pos; [lia|]. apply Z.pow_pos_nonneg; lia. }
  rewrite Hmax. reflexivity.
Qed.

Lemma within_100 : within_0_100 (S754_finite false 7036874417766400 (-46)).
Proof. by vm_compute. Qed.

Lemma clamp_within n : n ≠ S754_nan → within_0_100 (clamp n).
Proof.
  intros Hnan. destruct n as [s|s| |s m e]; [| |done|].
  - by destruct s.
  - destruct s; [done|exact within_100].
  - destruct s; [by rewrite clamp_negative|].
    rewrite clamp_finite.
    destruct (Z.compare_spec
                (7036874417766400 * 2 ^ (-46 - Z.min (-46) e))
                (Z.pos m * 2 ^ (e - Z.min (-46) e))) as [H|H|H];
      [exact within_100|exact within_100|].
    unfold within_0_100. split.
    + apply Z.mul_nonneg_nonneg; [lia|]. apply Z.pow_nonneg. lia.
    + apply compare_100. lia.
Qed.

Lemma number_compare_refl n : n ≠ S754_nan → number_compare n n = Some Eq.
Proof.
  destruct n as [s|s| |s m e]; try done.
  - by destruct s.
  - intros _. unfold number_compare, signed. by rewrite Z.compare_refl.
Qed.

Lemma clamp_spec n :
  n ≠ S754_nan →
  (below_0 n → clamp n = number_of_Z 0) ∧
  (above_100 n → clamp n = number_of_Z 100) ∧
  (within_0_100 n → number_compare (clamp n) n = Some Eq).
Proof.
  intros Hnan. destruct n as [s|s| |s m e]; [| |done|].
  - by destruct s.
  - by destruct s.
  - destruct s; [by rewrite clamp_negative|].
    rewrite clamp_finite, number_of_Z_100. split; [done|].
    pose proof (compare_100 m e) as Hc.
    destruct (Z.compare_spec
                (7036874417766400 * 2 ^ (-46 - Z.min (-46) e))
                (Z.pos m * 2 ^ (e - Z.min (-46) e))) as [H|H|H].
    + split; [done|]. intros _.
      unfold number_compare, signed. f_equal.
      by apply Z.compare_eq_iff.
    + split; [done|]. intros [_ Hw]. apply Hc in Hw. lia.
    + split.
      * unfold above_100. intros Ha. exfalso.
        assert (Hw : (Z.pos m * 2 ^ Z.max e 0 <= 100 * 2 ^ Z.max (- e) 0)%Z)
          by (apply Hc; lia).
        lia.
      * intros _. by apply number_compare_refl.
Qed.

Lemma risk_score_of_item orig item i r :
  normalizeItem orig item i = Ret r →
  (is_number (prop item (js "risk_score")) = false → Result.risk_score r = Null) ∧
  (∀ n, prop item (js "risk_score") = Num n →
        Result.risk_score r = Num (clamp n) ∧
        (n ≠ S754_nan →
         within_0_100 (clamp n) ∧
         (below_0 n → clamp n = number_of_Z 0) ∧
         (above_100 n → clamp n = number_of_Z 100) ∧
         (within_0_100 n → number_compare (clamp n) n = Some Eq))).
Proof.
  intros Hr.
  apply normalizeItem_Ret in Hr as (E & s & iss & _ & _ & ->). fields.
  split.
  - by destruct (prop item (js "risk_score")).
  - intros n ->. split; [done|]. intros Hn.
    split; [by apply clamp_within|by apply clamp_spec].
Qed.

(** ** Extraction *)

Lemma space_or_not_true c : space_or_not c = true.
Proof. unfold space_or_not. by destruct (is_space c). Qed.

Lemma run_star_then_chr c s :
  run (Seq (Star space_or_not) (Chr c)) s Some = after_last c s.
Proof.
  simpl. induction s as [|x s IH]; [done|].
  rewrite space_or_not_true, IH. simpl. by destruct (after_last c s).
Qed.

Lemma after_last_Some c s rest :
  after_last c s = Some rest →
  occurs c s = true ∧ s = through_last c s ++ rest.
Proof.
  revert rest. induction s as [|x s IH]; intros rest; simpl; [done|].
  destruct (after_last c s) as [rest'|] eqn:E.
  - intros [= <-]. destruct (IH _ eq_refl) as [Ho Hs].
    rewrite Ho, orb_true_r. split; [done|]. simpl. by f_equal.
  - destruct (x =? c) eqn:Ex; [|done]. intros [= <-]. split; [done|].
    destruct (occurs c s) eqn:Ho; [|done].
    exfalso. clear -E Ho. induction s as [|y s IH]; simpl in *; [done|].
    destruct (after_last c s); [done|].
    destruct (y =? c); [done|]. auto.
Qed.

Lemma after_last_None c s : after_last c s = None → occurs c s = false.
Proof.
  induction s as [|x s IH]; simpl; [done|].
  destruct (after_last c s); [done|]. destruct (x =? c); [done|]. auto.
Qed.

Lemma run_json_pattern c s :
  run json_pattern (c :: s) Some =
    if c =? lbrace then after_last rbrace s
    else if c =? lbracket then after_last rbracket s
    else None.
Proof.
  unfold json_pattern.
  change (run (Alt ?a ?b) ?t ?k)
    with (match run a t k with Some rest => Some rest | None => run b t k end).
  change (run (Seq (Chr ?d) ?r2) (c :: s) Some)
    with (if c =? d then run r2 s Some else None).
  rewrite !run_star_then_chr.
  destruct (c =? lbrace) eqn:E1.
  - apply N.eqb_eq in E1 as ->. by destruct (after_last rbrace s).
  - done.
Qed.

Lemma String_match_greedy_span text :
  String_match json_pattern text = greedy_span text.
Proof.
  induction text as [|c s IH]; [done|].
  cbn [String_match greedy_span]. rewrite run_json_pattern.
  assert (Hspan : ∀ d rest, after_last d s = Some rest →
            take (length (c :: s) - length rest) (c :: s) = c :: through_last d s).
  { intros d rest [_ Hs]%after_last_Some.
    assert (Hlen : (length (c :: s) - length rest)%nat
                   = length (c :: through_last d s)).
    { rewrite Hs at 1. simpl. rewrite length_app. lia. }
    rewrite Hlen. rewrite Hs at 2.
    exact (take_app_length (c :: through_last d s) rest). }
  destruct (c =? lbrace) eqn:E1; [|destruct (c =? lbracket) eqn:E2]; simpl.
  - destruct (after_last rbrace s) as [rest|] eqn:E.
    + rewrite (proj1 (after_last_Some _ _ _ E)). f_equal. by apply Hspan.
    + rewrite (after_last_None _ _ E).
      apply N.eqb_eq in E1 as ->. simpl. exact IH.
  - destruct (after_last rbracket s) as [rest|] eqn:E.
    + rewrite (proj1 (after_last_Some _ _ _ E)). f_equal. by apply Hspan.
    + by rewrite (after_last_None _ _ E).
  - exact IH.
Qed.

(** ** The span in words *)

Lemma last_index_Some c s j :
  last_index c s = Some j → occurs c s = true ∧ through_last c s = take (S j) s.
Proof.
  revert j. induction s as [|x s IH]; intros j; simpl; [done|].
  destruct (last_index c s) as [j'|] eqn:E.
  - intros [= <-]. destruct (IH _ eq_refl) as [Ho Ht].
    rewrite Ho, orb_true_r. split; [done|]. by rewrite Ht.
  - destruct (x =? c) eqn:Ex; [|done]. intros [= <-]. split; [done|].
    assert (Ho : occurs c s = false).
    { clear -E. induction s as [|y s IH]; simpl in *; [done|].
      destruct (last_index c s); [done|]. destruct (y =? c); [done|]. auto. }
    rewrite Ho. by rewrite take_0.
Qed.

Lemma last_index_None c s : last_index c s = None → occurs c s = false.
Proof.
  induction s as [|x s IH]; simpl; [done|].
  destruct (last_index c s); [done|]. destruct (x =? c); [done|]. auto.
Qed.

Lemma bracket_span_other o c x s :
  (x =? o) = false →
  bracket_span o c (x :: s) = shift <$> bracket_span o c s.
Proof.
  intros Hx. unfold bracket_span. simpl. rewrite Hx.
  destruct (first_index o s) as [i|]; simpl; [|done].
  destruct (last_index c s) as [j|]; simpl.
  - change (S i <? S j)%nat with (i <? j)%nat. by destruct (i <? j)%nat.
  - by destruct (x =? c).
Qed.

Lemma bracket_span_open o c s :
  (o =? c) = false →
  bracket_span o c (o :: s) = (λ j, (O, S j)) <$> last_index c s.
Proof.
  intros Hoc. unfold bracket_span. simpl. rewrite N.eqb_refl, Hoc.
  by destruct (last_index c s).
Qed.

Lemma cut_shift x s span : cut (x :: s) (shift span) = cut s span.
Proof. by destruct span. Qed.

Lemma cut_open x s j : cut (x :: s) (O, S j) = x :: take (S j) s.
Proof. done. Qed.

Lemma span_in_words_other x s :
  (x =? lbrace) = false → (x =? lbracket) = false →
  span_in_words (x :: s) = span_in_words s.
Proof.
  intros H1 H2. unfold span_in_words.
  rewrite !bracket_span_other by done.
  destruct (bracket_span lbrace rbrace s) as [a|],
           (bracket_span lbracket rbracket s) as [b|]; simpl;
    rewrite ?cut_shift; try done.
  change (S (fst a) <? S (fst b))%nat with (fst a <? fst b)%nat.
  f_equal. destruct (fst a <? fst b)%nat; apply cut_shift.
Qed.

Lemma greedy_span_in_words text : greedy_span text = span_in_words text.
Proof.
  induction text as [|x s IH]; [done|]. cbn [greedy_span].
  destruct (x =? lbrace) eqn:E1; [|destruct (x =? lbracket) eqn:E2].
  - apply N.eqb_eq in E1 as ->. cbn [andb].
    unfold span_in_words at 1.
    rewrite bracket_span_open, bracket_span_other by done.
    destruct (last_index rbrace s) as [j|] eqn:El.
    + destruct (last_index_Some _ _ _ El) as [-> ->]. simpl.
      by destruct (bracket_span lbracket rbracket s).
    + rewrite (last_index_None _ _ El). simpl. rewrite IH.
      unfold span_in_words.
      assert (bracket_span lbrace rbrace s = None) as ->.
      { unfold bracket_span. rewrite El. by destruct (first_index lbrace s). }
      by destruct (bracket_span lbracket rbracket s).
  - apply N.eqb_eq in E2 as ->. cbn [andb].
    unfold span_in_words at 1.
    rewrite bracket_span_open, bracket_span_other by done.
    destruct (last_index rbracket s) as [j|] eqn:El.
    + destruct (last_index_Some _ _ _ El) as [-> ->]. simpl.
      by destruct (bracket_span lbrace rbrace s).
    + rewrite (last_index_None _ _ El). simpl. rewrite IH.
      unfold span_in_words.
      assert (bracket_span lbracket rbracket s = None) as ->.
      { unfold bracket_span. rewrite El. by destruct (first_index lbracket s). }
      by destruct (bracket_span lbrace rbrace s).
  - cbn [andb]. rewrite IH. symmetry. by apply span_in_words_other.
Qed.

(** ** The parser does not run out of fuel *)

Lemma skip_ws_length s : (length (skip_ws s) ≤ length s)%nat.
Proof.
  induction s as [|c s IH]; simpl; [done|].
  destruct (is_json_ws c); simpl; lia.
Qed.

Lemma skip_ws_cons s c r : skip_ws s = c :: r → (length r < length s)%nat.
Proof. intros H. pose proof (skip_ws_length s) as Hl. rewrite H in Hl. simpl in Hl. lia. Qed.

Lemma parse_chars_length n : ∀ s acc str r,
  (length s ≤ n)%nat → parse_chars s acc = Some (str, r) → (length r < length s)%nat.
Proof.
  induction n as [|n IH]; intros s acc str r Hn H.
  - destruct s; [done|simpl in Hn; lia].
  - destruct s as [|c s]; [done|]. simpl in Hn. simpl in H.
    repeat case_match; simplify_eq; simpl in *; try lia;
      match goal with
      | H : parse_chars _ _ = Some _ |- _ => apply IH in H; simpl in *; lia
      end.
Qed.

Lemma span_digits_length s ds rest :
  span_digits s = (ds, rest) → (length ds + length rest = length s)%nat.
Proof.
  revert ds rest. induction s as [|c s IH]; intros ds rest; simpl.
  - by intros [= <- <-].
  - destruct (is_digit c).
    + destruct (span_digits s) as [ds' rest'] eqn:E. intros [= <- <-].
      simpl. rewrite (IH _ _ eq_refl). done.
    + by intros [= <- <-].
Qed.

Lemma parse_number_length s n r :
  parse_number s = Some (n, r) → (length r < length s)%nat.
Proof.
  unfold parse_number. intros H.
  repeat case_match; simplify_eq;
    repeat match goal with
           | H : span_digits _ = _ |- _ => apply span_digits_length in H
           end;
    simpl in *; lia.
Qed.

Lemma strip_prefix_length w s r :
  strip_prefix w s = Some r → (length r + length w = length s)%nat.
Proof.
  revert s. induction w as [|a w IH]; intros [|b s]; simpl; try done.
  - by intros [= <-].
  - by intros [= <-].
  - destruct (a =? b); [|done]. intros H%IH. lia.
Qed.

Ltac shorter :=
  repeat match goal with
         | H : skip_ws _ = _ :: _ |- _ => apply skip_ws_cons in H
         | H : parse_chars _ _ = Some _ |- _ =>
             apply (parse_chars_length _ _ _ _ _ (le_n _)) in H
         | H : parse_number _ = Some _ |- _ => apply parse_number_length in H
         | H : strip_prefix _ _ = Some _ |- _ => apply strip_prefix_length in H
         end;
  change (length (js "true")) with 4%nat in *;
  change (length (js "false")) with 5%nat in *;
  change (length (js "null")) with 4%nat in *;
  simpl length in *; try lia.

Lemma parse_progress fuel :
  (∀ s v r, parse_value fuel s = Parsed v r → (length r < length s)%nat) ∧
  (∀ s acc v r, parse_elements fuel s acc = Parsed v r → (length r < length s)%nat) ∧
  (∀ s acc v r, parse_members fuel s acc = Parsed v r → (length r < length s)%nat).
Proof.
  induction fuel as [|fuel (IHv & IHe & IHm)]; [by repeat split|].
  split; [|split].
  - intros s v r H. simpl in H.
    repeat case_match; simplify_eq;
      try match goal with
          | H : parse_members _ _ _ = Parsed _ _ |- _ => apply IHm in H
          | H : parse_elements _ _ _ = Parsed _ _ |- _ => apply IHe in H
          end;
      shorter.
  - intros s acc v r H. simpl in H.
    repeat case_match; simplify_eq;
      repeat match goal with
          | H : parse_value _ _ = Parsed _ _ |- _ => apply IHv in H
          | H : parse_elements _ _ _ = Parsed _ _ |- _ => apply IHe in H
          end;
      shorter.
  - intros s acc v r H. simpl in H.
    repeat case_match; simplify_eq;
      repeat match goal with
          | H : parse_value _ _ = Parsed _ _ |- _ => apply IHv in H
          | H : parse_members _ _ _ = Parsed _ _ |- _ => apply IHm in H
          end;
      shorter.
Qed.

Lemma parse_fuel_enough fuel :
  (∀ s, (2 * length s < fuel)%nat → parse_value fuel s ≠ OutOfFuel) ∧
  (∀ s acc, (2 * length s + 1 < fuel)%nat → parse_elements fuel s acc ≠ OutOfFuel) ∧
  (∀ s acc, (2 * length s + 1 < fuel)%nat → parse_members fuel s acc ≠ OutOfFuel).
Proof.
  induction fuel as [|fuel (IHv & IHe & IHm)]; [repeat split; intros; lia|].
  destruct (parse_progress fuel) as (Pv & Pe & Pm).
  split; [|split].
  - intros s Hs. simpl.
    repeat case_match; simplify_eq; try done;
      first [apply IHm | apply IHe]; shorter.
  - intros s acc Hs. simpl.
    destruct (parse_value fuel s) as [v r| |] eqn:Ev; [|done|].
    + apply Pv in Ev.
      repeat case_match; simplify_eq; try done. apply IHe. shorter.
    + exfalso. revert Ev. apply IHv. lia.
  - intros s acc Hs. simpl.
    repeat case_match; simplify_eq; try done.
    + apply IHm.
      repeat match goal with
             | H : parse_value _ _ = Parsed _ _ |- _ => apply Pv in H
             end.
      shorter.
    + exfalso.
      match goal with
      | H : parse_value _ _ = OutOfFuel |- _ => revert H; apply IHv
      end.
      shorter.
Qed.

Lemma JSON_parse_fuel s : parse_value (parse_fuel s) s ≠ OutOfFuel.
Proof. apply parse_fuel_enough. unfold parse_fuel. lia. Qed.

(** ** [JSON.parse] builds no NaN *)

Lemma iter_pos_invariant {A : Type} (P : A → Prop) (f : A → A) :
  (∀ x, P x → P (f x)) → ∀ p x, P x → P (SpecFloat.iter_pos f p x).
Proof. intros Hf. induction p as [p IH|p IH|]; simpl; auto. Qed.

Lemma shr_1_nonneg mrs : (0 <= shr_m mrs)%Z → (0 <= shr_m (shr_1 mrs))%Z.
Proof.
  destruct mrs as [m r s]. simpl.
  destruct m as [|p|p]; [done| |lia].
  destruct p; simpl; lia.
Qed.

Lemma shr_nonneg mrs e n :
  (0 <= shr_m mrs)%Z → (0 <= shr_m (fst (shr mrs e n)))%Z.
Proof.
  intros H. unfold shr. destruct n; simpl; try done.
  by apply (iter_pos_invariant (λ x, (0 <= shr_m x)%Z) _ shr_1_nonneg).
Qed.

Lemma shr_fexp_nonneg p e m ex l :
  (0 <= m)%Z → (0 <= shr_m (fst (shr_fexp p e m ex l)))%Z.
Proof.
  intros H. unfold shr_fexp. apply shr_nonneg.
  destruct l as [|[]]; done.
Qed.

Lemma round_nearest_even_nonneg m l : (0 <= m)%Z → (0 <= round_nearest_even m l)%Z.
Proof.
  intros H. unfold round_nearest_even.
  destruct l as [|[]]; try done; [destruct (Z.even m)|]; lia.
Qed.

Lemma binary_round_aux_not_nan p e sx mx ex lx :
  (0 <= mx)%Z → binary_round_aux p e sx mx ex lx ≠ S754_nan.
Proof.
  intros H. unfold binary_round_aux.
  pose proof (shr_fexp_nonneg p e mx ex lx H) as H1.
  destruct (shr_fexp p e mx ex lx) as [mrs' e']. simpl in H1.
  pose proof (shr_fexp_nonneg p e
                (round_nearest_even (shr_m mrs') (loc_of_shr_record mrs')) e' loc_Exact
                (round_nearest_even_nonneg _ _ H1)) as H2.
  destruct (shr_fexp p e _ e' loc_Exact) as [mrs'' e'']. simpl in H2.
  destruct (shr_m mrs'') as [|q|q]; [done| |lia].
  by destruct (e'' <=? e - p)%Z.
Qed.

Lemma binary_round_not_nan p e sx mx ex : binary_round p e sx mx ex ≠ S754_nan.
Proof.
  unfold binary_round. destruct (shl_align mx ex _) as [mz ez].
  by apply binary_round_aux_not_nan.
Qed.

Lemma SFdiv_finite_not_nan p e sx mx ex sy my ey :
  SFdiv p e (S754_finite sx mx ex) (S754_finite sy my ey) ≠ S754_nan.
Proof.
  unfold SFdiv, SFdiv_core_binary.
  set (m' := match (ex - ey - _)%Z with Z.pos _ => _ | _ => _ end).
  assert (Hm' : (0 <= m')%Z).
  { subst m'. destruct (ex - ey - _)%Z; [lia| |lia].
    apply Z.shiftl_nonneg. lia. }
  pose proof (Z.div_pos m' (Z.pos my) Hm' ltac:(lia)) as Hq.
  unfold Z.div in Hq. destruct (Z.div_eucl m' (Z.pos my)) as [q r].
  by apply binary_round_aux_not_nan.
Qed.

Lemma number_of_decimal_not_nan neg m e10 : number_of_decimal neg m e10 ≠ S754_nan.
Proof.
  unfold number_of_decimal. destruct m as [|m]; [done|].
  destruct e10; first [apply binary_round_not_nan | apply SFdiv_finite_not_nan].
Qed.

Lemma parse_number_not_nan s n r : parse_number s = Some (n, r) → n ≠ S754_nan.
Proof.
  unfold parse_number. intros H.
  repeat case_match; simplify_eq; apply number_of_decimal_not_nan.
Qed.

Lemma nan_free_Num n : n ≠ S754_nan → nan_free (Num n) = true.
Proof. by destruct n. Qed.

Lemma Num_nan_free n : nan_free (Num n) = true → n ≠ S754_nan.
Proof. by destruct n. Qed.

Lemma set_property_nan_free props k v :
  forallb (λ kv, nan_free (snd kv)) props = true → nan_free v = true →
  forallb (λ kv, nan_free (snd kv)) (set_property props k v) = true.
Proof.
  intros Hp Hv. induction props as [|[k' v'] ps IH]; simpl in *.
  - by rewrite Hv.
  - apply andb_prop in Hp as [H1 H2].
    destruct (str_eqb k' k); simpl; rewrite ?Hv, ?H1, ?H2; auto.
Qed.

Lemma snoc_nan_free acc v :
  forallb nan_free acc = true → nan_free v = true →
  forallb nan_free (acc ++ [v]) = true.
Proof. intros Ha Hv. rewrite forallb_app, Ha. simpl. by rewrite Hv. Qed.

Lemma parse_nan_free fuel :
  (∀ s v r, parse_value fuel s = Parsed v r → nan_free v = true) ∧
  (∀ s acc v r, forallb nan_free acc = true →
                parse_elements fuel s acc = Parsed v r → nan_free v = true) ∧
  (∀ s acc v r, forallb (λ kv, nan_free (snd kv)) acc = true →
                parse_members fuel s acc = Parsed v r → nan_free v = true).
Proof.
  induction fuel as [|fuel (IHv & IHe & IHm)]; [by repeat split|].
  split; [|split].
  - intros s v r H. simpl in H.
    repeat case_match; simplify_eq; try done;
      first [ eapply IHm; [|eassumption]; reflexivity
            | eapply IHe; [|eassumption]; reflexivity
            | eapply nan_free_Num, parse_number_not_nan; eassumption ].
  - intros s acc v r Hacc H. simpl in H.
    repeat case_match; simplify_eq;
      match goal with
      | H : parse_value _ _ = Parsed _ _ |- _ => apply IHv in H
      end.
    + eapply IHe; [|eassumption]. by apply snoc_nan_free.
    + by apply snoc_nan_free.
  - intros s acc v r Hacc H. simpl in H.
    repeat case_match; simplify_eq;
      match goal with
      | H : parse_value _ _ = Parsed _ _ |- _ => apply IHv in H
      end.
    + eapply IHm; [|eassumption]. by apply set_property_nan_free.
    + by apply set_property_nan_free.
Qed.

Lemma JSON_parse_nan_free text v : JSON_parse text = Ret v → nan_free v = true.
Proof.
  unfold JSON_parse. intros H.
  destruct (parse_value (parse_fuel text) text) as [v' r| |] eqn:E; try done.
  destruct (skip_ws r); [|done]. injection H as <-.
  by apply (proj1 (parse_nan_free _)) in E.
Qed.

Lemma extractJSON_nan_free text : nan_free (extractJSON text) = true.
Proof.
  destruct text as [| | | |s| |]; try done. unfold extractJSON.
  destruct (String_match json_pattern s) as [m|]; [|done].
  destruct (JSON_parse m) as [v|e] eqn:E; [|done].
  by apply JSON_parse_nan_free in E.
Qed.

Lemma own_property_nan_free props k v :
  forallb (λ kv, nan_free (snd kv)) props = true →
  own_property props k = Some v → nan_free v = true.
Proof.
  induction props as [|[k' v'] ps IH]; simpl; [done|].
  intros [H1 H2]%andb_prop. destruct (str_eqb k' k); [by intros [= <-]|auto].
Qed.

Lemma prop_nan_free v k : nan_free v = true → nan_free (prop v k) = true.
Proof.
  destruct v as [| | | | | |props]; try done. simpl. intros H.
  destruct (own_property props k) as [x|] eqn:E; [|done].
  by apply (own_property_nan_free _ _ _ H E).
Qed.

Lemma lookup_nan_free items i item :
  nan_free (Arr items) = true → items !! i = Some item → nan_free item = true.
Proof.
  simpl. intros H Hi. rewrite forallb_forall in H.
  apply H. apply list_elem_of_In. by eapply list_elem_of_lookup_2.
Qed.

(** C5: for every element of the parsed array, the normalized risk score
    is [null] when the element's [risk_score] is not a number, and
    otherwise that number brought into [0, 100] by
    [Math.min(100, Math.max(0, _))]: the result lies in the range, a score
    below [0] gives [0], one above [100] gives [100], and one in the range
    keeps its value; [-5] gives [0] and [150] gives [100]. *)
Theorem risk_score_clamped text orig items out i item r :
  extractJSON text = Arr items →
  normalizeResults (Arr items) orig = Ret out →
  items !! i = Some item → out !! i = Some r →
  get item (js "risk_score") = Ret (prop item (js "risk_score")) ∧
  (is_number (prop item (js "risk_score")) = false → Result.risk_score r = Null) ∧
  (∀ n, prop item (js "risk_score") = Num n →
        Result.risk_score r = Num (clamp n) ∧
        within_0_100 (clamp n) ∧
        (below_0 n → clamp n = number_of_Z 0) ∧
        (above_100 n → clamp n = number_of_Z 100) ∧
        (within_0_100 n → number_compare (clamp n) n = Some Eq)) ∧
  (prop item (js "risk_score") = Num (number_of_Z (-5)) →
   Result.risk_score r = Num (number_of_Z 0)) ∧
  (prop item (js "risk_score") = Num (number_of_Z 150) →
   Result.risk_score r = Num (number_of_Z 100)).
Proof.
  intros Hparsed H Hi Hr.
  pose proof (extractJSON_nan_free text) as Hnan. rewrite Hparsed in Hnan.
  apply (lookup_nan_free _ _ _ Hnan) in Hi as Hitem.
  apply (prop_nan_free _ (js "risk_score")) in Hitem.
  apply (normalizeResults_item _ _ _ _ _ _ H Hi) in Hr.
  destruct (risk_score_of_item _ _ _ _ Hr) as (Hnull & Hnum).
  split; [|split; [done|split; [|split]]].
  - apply get_prop. by apply normalizeItem_Ret in Hr as (E & _).
  - intros n Hn. destruct (Hnum n Hn) as (-> & Hc). split; [done|].
    apply Hc. apply Num_nan_free. by rewrite <- Hn.
  - intros Hn. by destruct (Hnum _ Hn) as (-> & _).
  - intros Hn. by destruct (Hnum _ Hn) as (-> & _).
Qed.

Lemma risk_score_clamped_witness :
  extractJSON (Str score_example)
  = Arr [Obj [(js "risk_score", Num (number_of_Z 150))]] ∧
  normalizeResults (Arr [Obj [(js "risk_score", Num (number_of_Z 150))]]) []
  = Ret [Result.mk (Str (js "row-0")) (js "medium") (Str [])
           (Num (number_of_Z 100)) []
           (Obj [(js "risk_score", Num (number_of_Z 150))])] ∧
  within_0_100 (clamp (number_of_Z 150)).
Proof.
  assert (Hparsed : extractJSON (Str score_example)
                    = Arr [Obj [(js "risk_score", Num (number_of_Z 150))]])
    by (vm_compute; reflexivity).
  split; [exact Hparsed|]. split; [reflexivity|].
  exact (proj1 (proj2 (proj1 (proj2 (proj2 (risk_score_clamped
    (Str score_example)
    [] [Obj [(js "risk_score", Num (number_of_Z 150))]]
    [Result.mk (Str (js "row-0")) (js "medium") (Str [])
           (Num (number_of_Z 100)) []
           (Obj [(js "risk_score", Num (number_of_Z 150))])]
    0%nat (Obj [(js "risk_score", Num (number_of_Z 150))]) _
    Hparsed eq_refl eq_refl eq_refl)))
    (number_of_Z 150) eq_refl))).
Defined.

(** C7: [extractJSON] makes one [JSON.parse] attempt, on the span that
    runs from the earliest opening brace (or bracket) to the last closing
    brace (or bracket); it returns the parsed value, and [null] when there
    is no such span or the parse fails.  The parse is never cut short.  The
    fenced array of the specification is returned parsed, and a text
    without JSON gives [null]. *)
Theorem extractJSON_single_attempt :
  (∀ text, String_match json_pattern text = span_in_words text) ∧
  (∀ v, extractJSON v =
        match v with
        | Str text =>
            match span_in_words text with
            | None => Null
            | Some span =>
                match JSON_parse span with
                | Ret parsed => parsed
                | Throw _ => Null
                end
            end
        | _ => Null
        end) ∧
  (∀ span, match parse_value (parse_fuel span) span with
           | OutOfFuel => False
           | _ => True
           end) ∧
  span_in_words fenced_example
  = Some (js "[{" ++ [dquote] ++ js "id" ++ [dquote] ++ js ":"
          ++ [dquote] ++ js "a" ++ [dquote] ++ js "}]") ∧
  extractJSON (Str fenced_example) = Arr [Obj [(js "id", Str (js "a"))]] ∧
  span_in_words (js "no json here") = None ∧
  extractJSON (Str (js "no json here")) = Null.
Proof.
  split.
  { intros text. by rewrite String_match_greedy_span, greedy_span_in_words. }
  split.
  { intros [| | | |text| |]; try reflexivity.
    unfold extractJSON.
    by rewrite String_match_greedy_span, greedy_span_in_words. }
  split.
  { intros span. pose proof (JSON_parse_fuel span) as H.
    by destruct (parse_value (parse_fuel span) span). }
  repeat split; by vm_compute.
Qed.

(** ** The answer for output that cannot be used *)

Lemma take_nonempty {A : Type} (n : nat) (l : list A) :
  (0 < n)%nat → l ≠ [] → take n l ≠ [].
Proof. destruct n; [lia|]. by destruct l. Qed.

(** A prose answer: a text without a span to parse gives no result, for
    any batch. *)
Lemma prose_not_normalized text limitedComplaints :
  span_in_words text = None →
  normalizeResults (extractJSON (Str text)) limitedComplaints = Ret [].
Proof.
  intros H. unfold extractJSON.
  by rewrite String_match_greedy_span, greedy_span_in_words, H.
Qed.

(** C8: when the provider answered with the text [text] and extraction
    and normalization give no result, the handler answers with status 502,
    the error [Unable to parse AI response] and, as [raw], the first 1000
    characters of [text]; that is the answer for a prose text, which holds
    no span to parse, and the excerpt is not empty when [text] is not. *)
Theorem unparseable_output complaint complaints data text :
  rawText_of data = Str text →
  let bad_gateway :=
    Response 502
      (Unparsed (js "Unable to parse AI response") (Str (take 1000 text))) in
  (normalizeResults (extractJSON (Str text)) (take 50 (complaint :: complaints))
   = Ret [] →
   analyze_complaints true (Arr (complaint :: complaints)) (Ret data)
   = bad_gateway) ∧
  (span_in_words text = None →
   analyze_complaints true (Arr (complaint :: complaints)) (Ret data)
   = bad_gateway) ∧
  take 1000 text `prefix_of` text ∧
  (length (take 1000 text) ≤ 1000)%nat ∧
  (text ≠ [] → take 1000 text ≠ []).
Proof.
  intros Htext bad_gateway.
  assert (Hbad : normalizeResults (extractJSON (Str text))
                   (take 50 (complaint :: complaints)) = Ret [] →
                 analyze_complaints true (Arr (complaint :: complaints)) (Ret data)
                 = bad_gateway).
  { intros Hnorm. unfold analyze_complaints. rewrite Ret_bind. unfold respond.
    rewrite Htext, Hnorm, Ret_bind. reflexivity. }
  split; [exact Hbad|]. split; [|split; [|split]].
  - intros Hspan. apply Hbad. by apply prose_not_normalized.
  - apply prefix_take.
  - rewrite length_take. lia.
  - apply take_nonempty. lia.
Qed.

Lemma unparseable_output_witness :
  rawText_of (Obj [(js "content", Arr [Obj [(js "text", Str (js "no json here"))]])])
  = Str (js "no json here") ∧
  analyze_complaints true (Arr [Obj []])
    (Ret (Obj [(js "content", Arr [Obj [(js "text", Str (js "no json here"))]])]))
  = Response 502
      (Unparsed (js "Unable to parse AI response") (Str (take 1000 (js "no json here")))).
Proof.
  split; [reflexivity|].
  exact (proj1 (unparseable_output (Obj []) []
    (Obj [(js "content", Arr [Obj [(js "text", Str (js "no json here"))]])])
    (js "no json here") eq_refl) eq_refl).
Defined.

(** * Further properties *)

(** ** The handler and the provider *)

Lemma handle_response key complaints post :
  fst (handle key complaints post)
  = analyze_complaints (truthy key) complaints
      (post (provider_request key (take 50 (elements complaints)))).
Proof.
  unfold handle, analyze_complaints.
  destruct complaints as [| | | | |[|c cs]|]; try done.
  by destruct (truthy key).
Qed.

(** X1: the provider is called only for a non-empty array with the
    credential set, then exactly once, with the first 50 complaints; a
    request body that is not a non-empty array is answered 400 whether or
    not the credential is set, and a missing credential 500. *)
Theorem provider_call_discipline key complaints post :
  snd (handle key complaints post)
  = (if is_batch complaints && truthy key
     then [provider_request key (take 50 (elements complaints))]
     else []) ∧
  (is_batch complaints = false →
   handle key complaints post
   = (Response 400 (Failed (js "Complaints (non-empty array) required.") None), [])) ∧
  (is_batch complaints = true → truthy key = false →
   handle key complaints post
   = (Response 500 (Failed (js "CLAUDE_API_KEY not configured on server.") None), [])) ∧
  (is_batch complaints = true → truthy key = true →
   ∀ e, post (provider_request key (take 50 (elements complaints))) = Throw e →
        handle key complaints post
        = (Response 500 (Failed (js "Analysis failed") (Some e)),
           [provider_request key (take 50 (elements complaints))])).
Proof.
  unfold handle.
  destruct complaints as [| | | | |[|c cs]|]; try (repeat split; done).
  cbn [is_batch elements andb]. destruct (truthy key) eqn:Hk.
  - repeat split; try done. intros _ _ e He. by rewrite He, Throw_bind.
  - repeat split; done.
Qed.

(** X2: complaints past the first 50 have no effect on the answer nor on
    the request sent. *)
Theorem batch_cap key l l' post :
  take 50 l = take 50 l' →
  handle key (Arr l) post = handle key (Arr l') post.
Proof.
  intros H. unfold handle.
  destruct l as [|c cs], l' as [|c' cs']; try done.
  by rewrite H.
Qed.

Lemma batch_cap_witness :
  take 50 (replicate 60 (Obj [])) = take 50 (replicate 50 (Obj [])) ∧
  handle (Str (js "k")) (Arr (replicate 60 (Obj []))) (λ _, Ret Null)
  = handle (Str (js "k")) (Arr (replicate 50 (Obj []))) (λ _, Ret Null).
Proof.
  split; [reflexivity|].
  exact (batch_cap (Str (js "k")) (replicate 60 (Obj [])) (replicate 50 (Obj []))
           (λ _, Ret Null) eq_refl).
Defined.

(** ** Exceptions of the normalizer *)

Lemma get_throws v k e : get v k = Throw e → e = TypeError.
Proof. destruct v; simpl; congruence. Qed.

Lemma or_else_throws a b e :
  a ||> b = Throw e → a = Throw e ∨ b = Throw e.
Proof.
  unfold or_else. destruct a as [v|e']; simpl; [|auto].
  destruct (truthy v); [done|auto].
Qed.

Lemma ToString_throws v e : ToString v = Throw e → e = TypeError.
Proof.
  induction v as [| |b|n|s|items IH|props] using value_ind'; try done.
  - change (ToString (Arr items)) with
      ((fix join (l : list value) : outcome jsstring :=
          match l with
          | [] => Ret []
          | x :: l' =>
              s ← match x with
                  | Undefined | Null => Ret []
                  | _ => ToString x
                  end;
              match l' with
              | [] => Ret s
              | _ => r ← join l'; Ret (s ++ 44 :: r)
              end
          end) items).
    induction IH as [|x l Hx Hl IHl]; [done|].
    set (join := fix join (l : list value) : outcome jsstring := _) in *.
    destruct (match x with Undefined | Null => Ret [] | _ => ToString x end)
      as [s|e'] eqn:Ex; rewrite ?Ret_bind, ?Throw_bind.
    + destruct l as [|y l']; [done|].
      destruct (join (y :: l')) as [r|e''] eqn:Ej; rewrite ?Ret_bind, ?Throw_bind;
        [done|]. intros [= <-]. by apply IHl.
    + intros [= <-]. apply Hx. by destruct x.
  - simpl. destruct (own_property props (js "toString")); congruence.
Qed.

Lemma toString_throws v e : toString v = Throw e → e = TypeError.
Proof.
  unfold toString. destruct v; first [congruence | apply ToString_throws].
Qed.

Lemma map_from_throws {A B : Type} (f : A → nat → outcome B) (l : list A) :
  ∀ i e, map_from f i l = Throw e → ∃ x j, x ∈ l ∧ f x j = Throw e.
Proof.
  induction l as [|x l IH]; intros i e; simpl; [done|].
  destruct (f x i) as [y|e'] eqn:Ex; rewrite ?Ret_bind, ?Throw_bind.
  - destruct (map_from f (S i) l) as [ys|e''] eqn:El; rewrite ?Ret_bind, ?Throw_bind;
      [done|].
    intros [= <-]. destruct (IH _ _ El) as (x' & j & Hx' & Hf).
    exists x', j. split; [by right|done].
  - intros [= <-]. exists x, i. split; [by left|done].
Qed.

Lemma normalizeIssue_throws issue e : normalizeIssue issue = Throw e → e = TypeError.
Proof.
  unfold normalizeIssue. destruct (nullish issue) eqn:E.
  - rewrite !(get_nullish _ _ E). unfold or_else. rewrite !Throw_bind. congruence.
  - rewrite !(get_prop _ _ E), !or_else_Ret, !Ret_bind. done.
Qed.

Lemma normalizeItem_throws orig item idx e :
  normalizeItem orig item idx = Throw e → e = TypeError.
Proof.
  unfold normalizeItem. rewrite or_else_Ret, Ret_bind. fold (base_of orig idx).
  destruct (nullish item) eqn:E.
  - rewrite !(get_nullish _ _ E). unfold or_else. rewrite !Throw_bind. congruence.
  - rewrite !(get_prop _ _ E), !(get_prop _ _ (base_of_not_nullish orig idx)).
    rewrite !or_else_Ret, Ret_bind.
    destruct (toString _) as [s|e'] eqn:Es; rewrite ?Ret_bind, ?Throw_bind.
    + destruct (match prop item (js "issues") with
                | Arr l => map_from (λ issue _, normalizeIssue issue) 0 (take 10 l)
                | _ => Ret []
                end) as [iss|e'] eqn:Ei; rewrite ?Ret_bind, ?Throw_bind; [done|].
      intros [= <-]. destruct (prop item (js "issues")); try done.
      apply map_from_throws in Ei as (x & j & _ & Hx).
      by apply normalizeIssue_throws in Hx.
    + intros [= <-]. by apply toString_throws in Es.
Qed.

Lemma normalizeResults_throws raw orig e :
  normalizeResults raw orig = Throw e → e = TypeError.
Proof.
  destruct raw; try done. simpl. intros H.
  apply map_from_throws in H as (x & j & _ & Hx).
  by apply normalizeItem_throws in Hx.
Qed.

(** ** The answer once the provider responded *)

Lemma respond_cases data limited text :
  rawText_of data = Str text →
  respond data limited =
    match normalizeResults (extractJSON (Str text)) limited with
    | Ret [] =>
        Ret (Response 502
               (Unparsed (js "Unable to parse AI response") (Str (take 1000 text))))
    | Ret results => Ret (Response 200 (Results (length results) results))
    | Throw e => Throw e
    end.
Proof.
  intros Ht. unfold respond. rewrite Ht.
  destruct (normalizeResults _ _) as [[|r rs]|e]; by rewrite ?Ret_bind, ?Throw_bind.
Qed.

Lemma normalizeResults_not_batch parsed limited :
  is_batch parsed = false → normalizeResults parsed limited = Ret [].
Proof. by destruct parsed as [| | | | |[|x xs]|]. Qed.

(** X3: once the provider answered with a text, the status is decided by
    what the text holds: 200 when the extracted value is a non-empty array
    whose elements can all be normalized, with as many results as the array
    has elements; 502 when it is anything but a non-empty array; 500 with a
    [TypeError] when it is a non-empty array with an element that cannot
    be normalized. *)
Theorem answer_classification key complaints post data text :
  is_batch complaints = true → truthy key = true →
  post (provider_request key (take 50 (elements complaints))) = Ret data →
  rawText_of data = Str text →
  let parsed := extractJSON (Str text) in
  let answer := fst (handle key complaints post) in
  (is_batch parsed = false →
   answer = Response 502
              (Unparsed (js "Unable to parse AI response") (Str (take 1000 text)))) ∧
  (is_batch parsed = true → forallb normalizable (elements parsed) = true →
   ∃ results,
     normalizeResults parsed (take 50 (elements complaints)) = Ret results ∧
     length results = length (elements parsed) ∧
     answer = Response 200 (Results (length (elements parsed)) results)) ∧
  (is_batch parsed = true → forallb normalizable (elements parsed) = false →
   answer = Response 500 (Failed (js "Analysis failed") (Some TypeError))) ∧
  (status answer = 200 ↔
   is_batch parsed && forallb normalizable (elements parsed) = true) ∧
  (status answer = 502 ↔ is_batch parsed = false) ∧
  (status answer = 500 ↔
   is_batch parsed && negb (forallb normalizable (elements parsed)) = true).
Proof.
  intros Hb Hk Hpost Ht parsed answer.
  assert (Ha : answer =
            match respond data (take 50 (elements complaints)) with
            | Ret r => r
            | Throw e => Response 500 (Failed (js "Analysis failed") (Some e))
            end).
  { subst answer. rewrite handle_response, Hk. unfold analyze_complaints.
    destruct complaints as [| | | | |[|c cs]|]; try done.
    cbn [elements] in *. by rewrite Hpost, Ret_bind. }
  rewrite (respond_cases _ _ _ Ht) in Ha. fold parsed in Ha.
  destruct (is_batch parsed) eqn:Hp.
  - destruct parsed as [| | | | |[|x xs]|] eqn:Eparsed; try done.
    cbn [elements andb] in *.
    destruct (forallb normalizable (x :: xs)) eqn:Hn.
    + destruct (proj2 (normalizeResults_returns
                         (take 50 (elements complaints)) _) Hn) as [results Hr].
      pose proof Hr as Hlen. unfold normalizeResults in Hlen.
      apply map_from_length in Hlen.
      rewrite Hr in Ha. destruct results as [|r rs]; [done|].
      rewrite Hlen in Ha. rewrite Ha.
      split; [done|]. split; [intros _ _; by exists (r :: rs)|].
      split; [done|]. by repeat split.
    + destruct (normalizeResults (Arr (x :: xs)) (take 50 (elements complaints)))
        as [results|e] eqn:Hr.
      * assert (forallb normalizable (x :: xs) = true); [|congruence].
        apply (normalizeResults_returns (take 50 (elements complaints))).
        by exists results.
      * apply normalizeResults_throws in Hr as Hr'. subst e. rewrite Ha.
        split; [done|]. split; [done|]. split; [done|]. by repeat split.
  - rewrite (normalizeResults_not_batch _ _ Hp) in Ha. rewrite Ha.
    split; [done|]. split; [done|]. split; [done|]. by repeat split.
Qed.

Lemma answer_classification_witness :
  rawText_of (Obj [(js "content", Arr [Obj [(js "text", Str (js "[{}]"))]])])
  = Str (js "[{}]") ∧
  fst (handle (Str (js "k")) (Arr [Obj []])
         (λ _, Ret (Obj [(js "content", Arr [Obj [(js "text", Str (js "[{}]"))]])])))
  = Response 200
      (Results 1 [Result.mk (Str (js "row-0")) (js "medium") (Str []) Null [] (Obj [])]).
Proof.
  split; [reflexivity|].
  destruct (proj1 (proj2 (answer_classification
    (Str (js "k")) (Arr [Obj []])
    (λ _, Ret (Obj [(js "content", Arr [Obj [(js "text", Str (js "[{}]"))]])]))
    (Obj [(js "content", Arr [Obj [(js "text", Str (js "[{}]"))]])])
    (js "[{}]") eq_refl eq_refl eq_refl eq_refl)) eq_refl eq_refl)
    as (results & Hr & _ & Ha).
  injection Hr as <-. exact Ha.
Defined.

(** ** What every normalized result satisfies *)

Lemma or_value_truthy a b : truthy b = true → truthy (or_value a b) = true.
Proof. intros Hb. unfold or_value. by destruct (truthy a) eqn:Ha. Qed.

Lemma or_value_default a b :
  truthy (or_value a b) = true ∨ or_value a b = b.
Proof. unfold or_value. destruct (truthy a) eqn:Ha; auto. Qed.

Lemma fallback_id_truthy orig idx : truthy (fallback_id orig idx) = true.
Proof.
  unfold fallback_id. apply or_value_truthy.
  pose proof (js_row_nonempty (N.of_nat idx)) as Hne.
  by destruct (js "row-" ++ decimal (N.of_nat idx)).
Qed.

Lemma fallback_id_past_batch orig idx :
  (length orig ≤ idx)%nat →
  fallback_id orig idx = Str (js "row-" ++ decimal (N.of_nat idx)).
Proof.
  intros Hlen. unfold fallback_id, base_of, at_index.
  by rewrite (lookup_ge_None_2 orig idx Hlen).
Qed.

(** X4: every normalized result has a truthy [id], whatever the model and
    the batch hold; for an element past the end of the batch whose own [id]
    is falsy it is the string [row-<index>], and since the handler passes
    the first 50 complaints only, that is so from index 50 on however many
    complaints were sent. *)
Theorem id_always_set orig items out i item r :
  normalizeResults (Arr items) orig = Ret out →
  items !! i = Some item → out !! i = Some r →
  truthy (Result.id r) = true ∧
  ((length orig ≤ i)%nat → truthy (prop item (js "id")) = false →
   Result.id r = Str (js "row-" ++ decimal (N.of_nat i))) ∧
  (∀ complaints, orig = take 50 complaints → (50 ≤ i)%nat →
                 truthy (prop item (js "id")) = false →
                 Result.id r = Str (js "row-" ++ decimal (N.of_nat i))).
Proof.
  intros Hout Hitem Hr.
  pose proof (normalizeResults_item _ _ _ _ _ _ Hout Hitem Hr) as Hn.
  apply normalizeItem_Ret in Hn as (_ & s & issues' & _ & _ & ->). fields.
  assert (Hpast : (length orig ≤ i)%nat → truthy (prop item (js "id")) = false →
                  or_value (prop item (js "id")) (fallback_id orig i)
                  = Str (js "row-" ++ decimal (N.of_nat i))).
  { intros Hlen Hid. unfold or_value. rewrite Hid.
    by apply fallback_id_past_batch. }
  split; [apply or_value_truthy, fallback_id_truthy|]. split; [done|].
  intros complaints -> Hi. apply Hpast.
  rewrite length_take. lia.
Qed.

Lemma id_always_set_witness :
  truthy (Result.id
            (Result.mk (Str (js "row-1")) (js "medium") (Str []) Null []
               (Obj [(js "id", Num (number_of_Z 0))]))) = true.
Proof.
  exact (proj1 (id_always_set [Obj []]
                  [Obj []; Obj [(js "id", Num (number_of_Z 0))]]
                  [Result.mk (Str (js "row-0")) (js "medium") (Str []) Null [] (Obj []);
                   Result.mk (Str (js "row-1")) (js "medium") (Str []) Null []
                     (Obj [(js "id", Num (number_of_Z 0))])]
                  1%nat (Obj [(js "id", Num (number_of_Z 0))]) _
                  eq_refl eq_refl eq_refl)).
Defined.

(** X5: the [text] of a normalized issue is the entry's own [text] when
    that is truthy and the empty string otherwise, and no field of a
    normalized issue is [undefined]: [text] and [rationale] are truthy or
    the empty string, [risk_category] is truthy or [null]. *)
Theorem issue_fields_filled orig items out i r j y :
  normalizeResults (Arr items) orig = Ret out → out !! i = Some r →
  Result.issues r !! j = Some y →
  (∃ item l issue,
     items !! i = Some item ∧ prop item (js "issues") = Arr l ∧
     l !! j = Some issue ∧
     Issue.text y = or_value (prop issue (js "text")) (Str [])) ∧
  (truthy (Issue.text y) = true ∨ Issue.text y = Str []) ∧
  (truthy (Issue.rationale y) = true ∨ Issue.rationale y = Str []) ∧
  (truthy (Issue.risk_category y) = true ∨ Issue.risk_category y = Null).
Proof.
  intros Hout Hr Hy.
  destruct (normalizeResults_lookup _ _ _ _ _ Hout Hr) as (item & Hitem & Hn).
  pose proof (issues_of_item _ _ _ _ Hn) as [Hnot Harr].
  destruct (prop item (js "issues")) as [| | | | |l|] eqn:Hp;
    try (rewrite Hnot in Hy by done; done).
  destruct (Harr l eq_refl) as (_ & Hback & _).
  destruct (Hback j y Hy) as (_ & issue & Hissue & Hy').
  apply normalizeIssue_Ret in Hy' as [_ ->]. fields.
  split; [by exists item, l, issue|].
  split; [apply or_value_default|]. split; apply or_value_default.
Qed.

Lemma issue_fields_filled_witness :
  Issue.text (Issue.mk (Str []) (Str []) Null) = Str [].
Proof.
  destruct (proj1 (proj2 (issue_fields_filled []
             [Obj [(js "issues", Arr [Obj [(js "text", Bool false)]])]]
             [Result.mk (Str (js "row-0")) (js "medium") (Str []) Null
                [Issue.mk (Str []) (Str []) Null]
                (Obj [(js "issues", Arr [Obj [(js "text", Bool false)]])])]
             0%nat _ 0%nat _ eq_refl eq_refl eq_refl))) as [H|H].
  - discriminate H.
  - exact H.
Defined.

(** X6: on an array the normalizer throws exactly when some element cannot
    be normalized, the exception is a [TypeError], and the input batch has
    no part in it. *)
Theorem normalizer_exceptions orig items :
  (normalizeResults (Arr items) orig = Throw TypeError ↔
   forallb normalizable items = false) ∧
  (∀ e, normalizeResults (Arr items) orig = Throw e → e = TypeError) ∧
  (∀ orig' e, normalizeResults (Arr items) orig = Throw e →
              normalizeResults (Arr items) orig' = Throw e).
Proof.
  assert (Hiff : ∀ o, normalizeResults (Arr items) o = Throw TypeError ↔
                      forallb normalizable items = false).
  { intros o. split.
    - intros Ht. destruct (forallb normalizable items) eqn:Hn; [|done].
      apply (normalizeResults_returns o) in Hn as [out Hout]. congruence.
    - intros Hn. destruct (normalizeResults (Arr items) o) as [out|e] eqn:Hout.
      + assert (forallb normalizable items = true); [|congruence].
        apply (normalizeResults_returns o). by exists out.
      + by rewrite (normalizeResults_throws _ _ _ Hout). }
  split; [apply Hiff|]. split.
  - intros e. apply normalizeResults_throws.
  - intros orig' e He. pose proof (normalizeResults_throws _ _ _ He) as ->.
    apply Hiff. by apply (Hiff orig).
Qed.

(** ** Answers that follow the prompt *)

Lemma or_value_string v : is_string v = true → or_value v (Str []) = v.
Proof. destruct v as [| | | |[|c s]| |]; done. Qed.

Lemma or_value_kept a b : truthy a = true → or_value a b = a.
Proof. intros H. unfold or_value. by rewrite H. Qed.

Lemma allowed_lower p :
  includes allowedPriorities p = true → p ≠ [] ∧ toLowerCase p = p.
Proof.
  intros H. apply includes_elem_of in H. unfold allowedPriorities in H.
  apply elem_of_cons in H as [->|H]; [done|].
  apply elem_of_cons in H as [->|H]; [done|].
  apply elem_of_cons in H as [->|H]; [done|].
  by apply elem_of_nil in H.
Qed.

Lemma conforming_issue_normalized issue :
  conforming_issue issue = true →
  nullish issue = false ∧ normalizeIssue issue = Ret (issue_of issue).
Proof.
  unfold conforming_issue. intros H.
  repeat (apply andb_prop in H as [H ?]). apply negb_true_iff in H.
  split; [done|].
  destruct (normalizeIssue_total issue H) as [y Hy]. rewrite Hy.
  apply normalizeIssue_Ret in Hy as [_ ->]. unfold issue_of.
  rewrite (or_value_string (prop issue (js "text"))) by done.
  rewrite !(or_value_kept (prop issue (js "rationale"))) by done.
  by rewrite !(or_value_kept (prop issue (js "risk_category"))) by done.
Qed.

Lemma map_from_conforming l :
  forallb conforming_issue l = true →
  ∀ i, map_from (λ issue (_ : nat), normalizeIssue issue) i l = Ret (map issue_of l).
Proof.
  induction l as [|x l IH]; [done|]. intros H i.
  cbn [forallb] in H. apply andb_prop in H as [Hx Hl]. cbn [map_from].
  destruct (conforming_issue_normalized x Hx) as [_ ->].
  by rewrite Ret_bind, (IH Hl), Ret_bind.
Qed.

Lemma score_in_range n :
  match number_compare (number_of_Z 0) n, number_compare n (number_of_Z 100) with
  | Some (Lt | Eq), Some (Lt | Eq) => true
  | _, _ => false
  end = true →
  n ≠ S754_nan ∧ within_0_100 n.
Proof.
  rewrite number_of_Z_0, number_of_Z_100.
  destruct n as [s|s| |s m e]; try done.
  - by destruct s.
  - destruct s.
    + unfold number_compare at 1. unfold signed.
      assert ((0 * 2 ^ (0 - Z.min 0 e) ?= Z.neg m * 2 ^ (e - Z.min 0 e))%Z = Gt) as ->;
        [|done].
      apply Z.compare_gt_iff. rewrite Z.mul_0_l.
      apply Z.mul_neg_pos; [lia|]. apply Z.pow_pos_nonneg; lia.
    + intros H. split; [done|]. unfold within_0_100. split.
      { apply Z.mul_nonneg_nonneg; [lia|]. apply Z.pow_nonneg; lia. }
      apply compare_100. rewrite (Z.min_comm (-46) e).
      destruct (number_compare (S754_zero false) (S754_finite false m e))
        as [[| |]|]; try done.
      all: unfold number_compare, signed in H.
      all: destruct (Z.pos m * 2 ^ (e - Z.min e (-46))
                     ?= 7036874417766400 * 2 ^ (-46 - Z.min e (-46)))%Z eqn:Hc;
        try done.
      all: unfold Z.le; by rewrite Hc.
Qed.

Lemma conforming_normalized orig item idx :
  conforming item = true →
  ∃ p n l,
    prop item (js "priority") = Str p ∧
    prop item (js "risk_score") = Num n ∧
    prop item (js "issues") = Arr l ∧
    number_compare (clamp n) n = Some Eq ∧
    normalizeItem orig item idx
    = Ret (Result.mk (prop item (js "id")) p (prop item (js "summary"))
             (Num (clamp n)) (map issue_of l) item).
Proof.
  unfold conforming. intros H.
  repeat (apply andb_prop in H as [H ?]). apply negb_true_iff in H.
  destruct (prop item (js "priority")) as [| | | |p| |] eqn:Hp; try done.
  destruct (prop item (js "risk_score")) as [| | |n| | |] eqn:Hs; try done.
  destruct (prop item (js "issues")) as [| | | | |l|] eqn:Hi; try done.
  match goal with
  | Hx : (_ <=? _)%nat && _ = true |- _ => apply andb_prop in Hx as [Hlen Hl]
  end.
  apply Nat.leb_le in Hlen.
  destruct (allowed_lower p) as [Hne Hlow]; [done|].
  destruct (score_in_range n) as [Hnan Hin]; [done|].
  exists p, n, l. do 3 (split; [done|]).
  split; [by apply clamp_spec|].
  assert (Hnorm : normalizable item = true).
  { unfold normalizable. rewrite H, Hp, Hi. cbn [negb printable andb].
    rewrite take_ge by done. apply forallb_forall. intros x Hx.
    rewrite forallb_forall in Hl. apply Hl in Hx.
    apply conforming_issue_normalized in Hx as [-> _]. done. }
  apply (normalizeItem_returns orig item idx) in Hnorm as [r Hr].
  rewrite Hr. f_equal.
  apply normalizeItem_Ret in Hr as (_ & s & issues' & Hs' & Hiss & ->).
  rewrite Hp, Hs, Hi in *.
  rewrite take_ge in Hiss by done. rewrite (map_from_conforming l Hl) in Hiss.
  injection Hiss as <-.
  assert (s = p) as ->.
  { destruct p as [|c p]; [done|]. cbn in Hs'. congruence. }
  rewrite Hlow.
  match goal with
  | Hincl : includes allowedPriorities p = true |- _ => rewrite Hincl
  end.
  rewrite (or_value_kept (prop item (js "id"))) by done.
  by rewrite (or_value_string (prop item (js "summary"))) by done.
Qed.

(** X7: an element that follows the prompt (a non-empty string [id], one
    of the three priorities, a string [summary], a score between 0 and
    100, at most ten issues, each with a string [text] and non-empty
    strings [rationale] and [risk_category]) is normalized to itself:
    every field of the result is the element's own, the score up to the
    sign of zero, and no default is used; an answer made of such elements
    is answered to the last element. *)
Theorem conforming_preserved orig items :
  forallb conforming items = true →
  ∃ out,
    normalizeResults (Arr items) orig = Ret out ∧
    length out = length items ∧
    ∀ i item r, items !! i = Some item → out !! i = Some r →
      ∃ p n l,
        prop item (js "priority") = Str p ∧
        prop item (js "risk_score") = Num n ∧
        prop item (js "issues") = Arr l ∧
        number_compare (clamp n) n = Some Eq ∧
        r = Result.mk (prop item (js "id")) p (prop item (js "summary"))
              (Num (clamp n)) (map issue_of l) item.
Proof.
  intros Hall. rewrite forallb_forall in Hall.
  assert (Hret : ∃ out, normalizeResults (Arr items) orig = Ret out).
  { apply normalizeResults_returns, forallb_forall. intros x Hx.
    destruct (conforming_normalized orig x 0 (Hall x Hx)) as (p & n & l & _ & _ & _ & _ & Hn).
    apply (normalizeItem_returns orig x 0). eauto. }
  destruct Hret as [out Hout]. exists out. split; [done|].
  split; [by apply map_from_length in Hout|].
  intros i item r Hitem Hr.
  pose proof (normalizeResults_item _ _ _ _ _ _ Hout Hitem Hr) as Hn.
  assert (Hin : In item items).
  { apply list_elem_of_In. by apply list_elem_of_lookup_2 in Hitem. }
  destruct (conforming_normalized orig item i (Hall item Hin))
    as (p & n & l & Hp & Hs & Hi & Hc & Hn').
  exists p, n, l. do 4 (split; [done|]). congruence.
Qed.

Lemma conforming_preserved_witness :
  ∃ out,
    normalizeResults structuredExample [] = Ret out ∧
    length out = length (elements structuredExample) ∧
    ∀ i item r, elements structuredExample !! i = Some item → out !! i = Some r →
      ∃ p n l,
        prop item (js "priority") = Str p ∧
        prop item (js "risk_score") = Num n ∧
        prop item (js "issues") = Arr l ∧
        number_compare (clamp n) n = Some Eq ∧
        r = Result.mk (prop item (js "id")) p (prop item (js "summary"))
              (Num (clamp n)) (map issue_of l) item.
Proof.
  apply (conforming_preserved [] (elements structuredExample)).
  vm_compute; reflexivity.
Defined.

(** X8: the example the prompt shows to the model is in the form the
    normalizer produces: it is normalized to its own fields whatever the
    batch, so an answer that repeats the example is returned as it is. *)
Theorem prompt_example_is_normal orig :
  forallb conforming (elements structuredExample) = true ∧
  ∃ item,
    structuredExample = Arr [item] ∧
    normalizeResults structuredExample orig
    = Ret [Result.mk (Str (js "160614-000000")) (js "urgent")
             (prop item (js "summary")) (Num (number_of_Z 82))
             (map issue_of (elements (prop item (js "issues")))) item].
Proof.
  split; [vm_compute; reflexivity|].
  eexists. split; [reflexivity|].
  unfold structuredExample, normalizeResults. cbn [map_from].
  match goal with
  | |- context [normalizeItem orig ?x 0] =>
      destruct (conforming_normalized orig x 0) as (p & n & l & Hp & Hs & Hi & _ & ->);
        [vm_compute; reflexivity|]
  end.
  rewrite !Ret_bind.
  cbn in Hp. injection Hp as <-.
  cbn in Hs. injection Hs as <-.
  cbn in Hi. injection Hi as <-.
  reflexivity.
Qed.

(** ** What the extractor returns *)

Lemma parse_containers fuel :
  (∀ s acc v r, parse_elements fuel s acc = Parsed v r → isArray v = true) ∧
  (∀ s acc v r, parse_members fuel s acc = Parsed v r →
                null_or_container v = true ∧ nullish v = false ∧ isArray v = false).
Proof.
  induction fuel as [|fuel [IHe IHm]]; [done|]. split.
  - intros s acc v r. cbn [parse_elements].
    destruct (parse_value fuel s) as [x r1| |]; try done.
    destruct (skip_ws r1) as [|c r2]; [done|].
    destruct (c =? 44); [apply IHe|].
    destruct (c =? rbracket); [|done]. by intros [= <- <-].
  - intros s acc v r. cbn [parse_members].
    destruct (skip_ws s) as [|c r0]; [done|].
    destruct (c =? dquote); [|done].
    destruct (parse_chars r0 []) as [[k r1]|]; [|done].
    destruct (skip_ws r1) as [|c1 r2]; [done|].
    destruct (c1 =? 58); [|done].
    destruct (parse_value fuel r2) as [x r3| |]; try done.
    destruct (skip_ws r3) as [|c3 r4]; [done|].
    destruct (c3 =? 44); [apply IHm|].
    destruct (c3 =? rbrace); [|done]. by intros [= <- <-].
Qed.

Lemma parse_value_opener fuel c s v r :
  is_opener c = true → parse_value fuel (c :: s) = Parsed v r →
  null_or_container v = true ∧ nullish v = false ∧
  isArray v = (c =? lbracket).
Proof.
  destruct fuel as [|fuel]; [done|]. intros Hc. cbn [parse_value skip_ws].
  assert (Hws : is_json_ws c = false).
  { unfold is_opener in Hc. apply orb_prop in Hc as [Hc|Hc];
      apply N.eqb_eq in Hc; by subst c. }
  rewrite Hws. destruct (c =? lbrace) eqn:Hb.
  - apply N.eqb_eq in Hb. subst c. change (lbrace =? lbracket) with false.
    destruct (skip_ws s) as [|c' r']; [done|].
    destruct (c' =? rbrace); [by intros [= <- <-]|].
    intros H. by apply (proj2 (parse_containers fuel)) in H.
  - unfold is_opener in Hc. rewrite Hb in Hc. cbn [orb] in Hc. rewrite Hc.
    destruct (skip_ws s) as [|c' r']; [done|].
    destruct (c' =? rbracket); [by intros [= <- <-]|].
    intros H. apply (proj1 (parse_containers fuel)) in H.
    by destruct v.
Qed.

Lemma greedy_span_opener text span :
  greedy_span text = Some span →
  ∃ c s, span = c :: s ∧ is_opener c = true.
Proof.
  induction text as [|c rest IH]; [done|]. cbn [greedy_span].
  destruct (c =? lbrace) eqn:Hb; cbn [andb].
  - destruct (occurs rbrace rest).
    + intros [= <-]. eexists _, _. split; [done|]. unfold is_opener. by rewrite Hb.
    + destruct (c =? lbracket) eqn:Hk; cbn [andb]; [|done].
      destruct (occurs rbracket rest); [|done].
      intros [= <-]. eexists _, _. split; [done|]. unfold is_opener. by rewrite Hb.
  - destruct (c =? lbracket) eqn:Hk; cbn [andb]; [|done].
    destruct (occurs rbracket rest); [|done].
    intros [= <-]. eexists _, _. split; [done|]. unfold is_opener.
    rewrite Hk. by rewrite orb_true_r.
Qed.

(** X9: [extractJSON] returns [null], an array or an object, never a
    string, a number, a boolean or [undefined], whatever it is given; an
    array only from a span that opens with a bracket, and an object only
    from one that opens with a brace. *)
Theorem extractJSON_returns_container v :
  null_or_container (extractJSON v) = true ∧
  ∀ text c s,
    v = Str text → span_in_words text = Some (c :: s) →
    (isArray (extractJSON v) = true → c = lbracket) ∧
    (nullish (extractJSON v) = false → isArray (extractJSON v) = false →
     c = lbrace).
Proof.
  assert (Hspan : ∀ text c s,
            greedy_span text = Some (c :: s) →
            null_or_container (extractJSON (Str text)) = true ∧
            (isArray (extractJSON (Str text)) = true → c = lbracket) ∧
            (nullish (extractJSON (Str text)) = false →
             isArray (extractJSON (Str text)) = false → c = lbrace)).
  { intros text c s Hg. unfold extractJSON.
    rewrite String_match_greedy_span, Hg. unfold JSON_parse.
    destruct (greedy_span_opener _ _ Hg) as (c' & s' & [= <- <-] & Hc).
    destruct (parse_value (parse_fuel (c :: s)) (c :: s)) as [x r| |] eqn:Hp;
      try done.
    destruct (skip_ws r); [|done].
    destruct (parse_value_opener _ _ _ _ _ Hc Hp) as (H1 & H2 & H3).
    split; [done|]. rewrite H3, H2. split.
    - intros Hk. by apply N.eqb_eq in Hk.
    - intros _ Hk. unfold is_opener in Hc. rewrite Hk, orb_false_r in Hc.
      by apply N.eqb_eq in Hc. }
  split.
  - destruct v as [| | | |text| |]; try done.
    destruct (greedy_span text) as [span|] eqn:Hg.
    + destruct (greedy_span_opener _ _ Hg) as (c & s & -> & _).
      by apply (Hspan text c s).
    + unfold extractJSON. by rewrite String_match_greedy_span, Hg.
  - intros text c s -> Hs. rewrite <- greedy_span_in_words in Hs.
    by apply (Hspan text c s).
Qed.

(** ** JSON inside prose *)

Lemma occurs_app c s t : occurs c (s ++ t) = occurs c s || occurs c t.
Proof.
  induction s as [|x s IH]; [done|]. cbn [app occurs].
  by rewrite IH, orb_assoc.
Qed.

Lemma occurs_here c s : occurs c (c :: s) = true.
Proof. cbn [occurs]. by rewrite N.eqb_refl. Qed.

Lemma through_last_app c body post :
  occurs c post = false →
  through_last c (body ++ c :: post) = body ++ [c].
Proof.
  intros Hpost. induction body as [|x body IH].
  - cbn [app through_last]. by rewrite Hpost.
  - cbn [app through_last]. by rewrite occurs_app, occurs_here, orb_true_r, IH.
Qed.

Lemma greedy_span_skip pre rest :
  no_opener pre = true → greedy_span (pre ++ rest) = greedy_span rest.
Proof.
  unfold no_opener. induction pre as [|c pre IH]; [done|].
  cbn [occurs app greedy_span]. intros H.
  apply andb_prop in H as [H1 H2].
  apply negb_true_iff, orb_false_elim in H1 as [H1 H1'].
  apply negb_true_iff, orb_false_elim in H2 as [H2 H2'].
  rewrite H1, H2. cbn [andb]. apply IH. by rewrite H1', H2'.
Qed.

Lemma greedy_span_document open body post :
  is_opener open = true → occurs (closer open) post = false →
  greedy_span (open :: body ++ closer open :: post)
  = Some (open :: body ++ [closer open]).
Proof.
  intros Ho Hpost. unfold is_opener in Ho.
  apply orb_prop in Ho as [Ho|Ho]; apply N.eqb_eq in Ho; subst open.
  - change (closer lbrace) with rbrace in *. cbn [greedy_span].
    change (lbrace =? lbrace) with true.
    rewrite occurs_app, occurs_here, orb_true_r. cbn [andb].
    by rewrite through_last_app.
  - change (closer lbracket) with rbracket in *. cbn [greedy_span].
    change (lbracket =? lbrace) with false.
    change (lbracket =? lbracket) with true. cbn [andb].
    rewrite occurs_app, occurs_here, orb_true_r. cbn [andb].
    by rewrite through_last_app.
Qed.

(** X10: prose around a JSON document does not change what is extracted:
    when the text before the document holds no brace or bracket and the
    text after it holds no closing bracket of the document's kind, the
    extractor returns what it returns on the document alone, which is the
    parsed document, or [null] when the document is not valid JSON. *)
Theorem extraction_ignores_prose pre open body post :
  no_opener pre = true → is_opener open = true →
  occurs (closer open) post = false →
  let document := open :: body ++ [closer open] in
  span_in_words (pre ++ open :: body ++ closer open :: post) = Some document ∧
  extractJSON (Str (pre ++ open :: body ++ closer open :: post))
  = extractJSON (Str document) ∧
  extractJSON (Str document)
  = match JSON_parse document with
    | Ret v => v
    | Throw _ => Null
    end.
Proof.
  intros Hpre Ho Hpost document.
  assert (H1 : greedy_span (pre ++ open :: body ++ closer open :: post)
               = Some document).
  { rewrite greedy_span_skip by done. by apply greedy_span_document. }
  assert (H2 : greedy_span document = Some document).
  { by apply (greedy_span_document open body []). }
  split; [by rewrite <- greedy_span_in_words|].
  unfold extractJSON. by rewrite !String_match_greedy_span, H1, H2.
Qed.

Lemma extraction_ignores_prose_witness :
  extractJSON (Str (js "Sure: " ++ lbracket :: js "1, 2" ++ closer lbracket :: js " done."))
  = extractJSON (Str (lbracket :: js "1, 2" ++ [closer lbracket])).
Proof.
  exact (proj1 (proj2 (extraction_ignores_prose (js "Sure: ") lbracket (js "1, 2")
                         (js " done.") eq_refl eq_refl eq_refl))).
Defined.

(** ** The shape of every answer *)

Lemma respond_shape data limited r :
  respond data limited = Ret r →
  match payload r with
  | Results count results =>
      status r = 200 ∧ count = length results ∧ results ≠ []
  | Unparsed error raw =>
      status r = 502 ∧ error = js "Unable to parse AI response"
  | Failed _ _ => False
  end.
Proof.
  unfold respond.
  destruct (normalizeResults _ _) as [[|x xs]|e]; rewrite ?Ret_bind, ?Throw_bind;
    try done.
  - destruct (slice_to 1000 (rawText_of data)) as [excerpt|e];
      rewrite ?Ret_bind, ?Throw_bind; [|done].
    by intros [= <-].
  - by intros [= <-].
Qed.

(** X11: whatever the credential, the request body and the provider do, the
    handler answers with one of four statuses, and the body goes with the
    status: 200 carries a non-empty list of results and its length, 502 the
    parse error, 400 the validation error, 500 the configuration error or
    the failure with its exception. *)
Theorem answer_shape key complaints post :
  let answer := fst (handle key complaints post) in
  match payload answer with
  | Results count results =>
      status answer = 200 ∧ count = length results ∧ results ≠ []
  | Unparsed error raw =>
      status answer = 502 ∧ error = js "Unable to parse AI response"
  | Failed error detail =>
      (status answer = 400 ∧ detail = None ∧ is_batch complaints = false ∧
       error = js "Complaints (non-empty array) required.") ∨
      (status answer = 500 ∧ detail = None ∧ truthy key = false ∧
       error = js "CLAUDE_API_KEY not configured on server.") ∨
      (status answer = 500 ∧ detail ≠ None ∧ error = js "Analysis failed")
  end.
Proof.
  intros answer. subst answer. rewrite handle_response.
  unfold analyze_complaints.
  destruct complaints as [| | | | |[|c cs]|]; try (by left).
  destruct (truthy key) eqn:Hk; [|by right; left].
  cbn [elements].
  destruct (post _) as [data|e]; rewrite ?Ret_bind, ?Throw_bind; [|by right; right].
  destruct (respond data (take 50 (c :: cs))) as [r|e] eqn:Hr; [|by right; right].
  apply respond_shape in Hr. by destruct (payload r).
Qed.

(** ** The health report and the handler *)

(** X12: the [hasKey] flag of the health report tells what the analysis
    endpoint does with a valid batch: with [hasKey] false the batch is
    answered with the configuration error and the provider is not called,
    and with [hasKey] true the provider is called and the answer is never
    the configuration error. *)
Theorem health_tells_configuration key complaints post :
  is_batch complaints = true →
  (hasKey (health key) = false ↔
   fst (handle key complaints post)
   = Response 500 (Failed (js "CLAUDE_API_KEY not configured on server.") None)) ∧
  (hasKey (health key) = true ↔ snd (handle key complaints post) ≠ []).
Proof.
  intros Hb. cbn [health hasKey]. pose proof (handle_response key complaints post) as Hh.
  unfold handle in *. unfold analyze_complaints in Hh.
  destruct complaints as [| | | | |[|c cs]|]; try done.
  destruct (truthy key) eqn:Hk; cbn [fst snd] in *; [|done].
  split; [|done]. split; [done|]. intros Ha. exfalso. clear Hh.
  destruct (post _) as [data|e]; rewrite ?Ret_bind, ?Throw_bind in Ha; [|done].
  destruct (respond data (take 50 (c :: cs))) as [r|e] eqn:Hr; [|done].
  apply respond_shape in Hr. by rewrite Ha in Hr.
Qed.

Lemma health_tells_configuration_witness :
  hasKey (health Undefined) = false ∧
  fst (handle Undefined (Arr [Obj []]) (λ _, Ret Null))
  = Response 500 (Failed (js "CLAUDE_API_KEY not configured on server.") None).
Proof.
  split; [reflexivity|].
  exact (proj1 (proj1 (health_tells_configuration Undefined (Arr [Obj []])
                         (λ _, Ret Null) eq_refl)) eq_refl).
Defined.

(** ** The text of the provider's answer *)

Lemma handle_answered key complaints post data :
  is_batch complaints = true → truthy key = true →
  post (provider_request key (take 50 (elements complaints))) = Ret data →
  fst (handle key complaints post)
  = match respond data (take 50 (elements complaints)) with
    | Ret r => r
    | Throw e => Response 500 (Failed (js "Analysis failed") (Some e))
    end.
Proof.
  intros Hb Hk Hpost. rewrite handle_response, Hk. unfold analyze_complaints.
  destruct complaints as [| | | | |[|c cs]|]; try done.
  cbn [elements] in *. by rewrite Hpost, Ret_bind.
Qed.

Lemma get_opt_prop v k : get_opt v k = prop v k.
Proof. by destruct v. Qed.

Lemma rawText_of_provider_text data :
  rawText_of data = or_value (provider_text data) (Str []).
Proof. done. Qed.

(** X13: when the provider's answer holds no text (the data is [null] or
    [undefined], has no [content], an empty [content], a first block that
    is [null] or without [text], or a falsy [text]), the handler answers
    502 with an empty excerpt. *)
Theorem missing_provider_text key complaints post data :
  is_batch complaints = true → truthy key = true →
  post (provider_request key (take 50 (elements complaints))) = Ret data →
  (truthy (provider_text data) = false →
   fst (handle key complaints post)
   = Response 502 (Unparsed (js "Unable to parse AI response") (Str []))) ∧
  (nullish data = true ∨ nullish (prop data (js "content")) = true ∨
   prop data (js "content") = Arr [] ∨
   (∃ block blocks, prop data (js "content") = Arr (block :: blocks) ∧
                    truthy (prop block (js "text")) = false) →
   truthy (provider_text data) = false).
Proof.
  intros Hb Hk Hpost. split.
  - intros Ht. rewrite (handle_answered _ _ _ _ Hb Hk Hpost).
    unfold respond. rewrite rawText_of_provider_text. unfold or_value. rewrite Ht.
    change (extractJSON (Str [])) with Null.
    cbn [normalizeResults]. by rewrite Ret_bind.
  - unfold provider_text. rewrite !get_opt_prop.
    intros [H|[H|[H|(block & blocks & H1 & H2)]]].
    + by destruct data.
    + by destruct (prop data (js "content")).
    + by rewrite H.
    + by rewrite H1.
Qed.

Lemma missing_provider_text_witness :
  fst (handle (Str (js "k")) (Arr [Obj []]) (λ _, Ret (Obj [(js "content", Arr [])])))
  = Response 502 (Unparsed (js "Unable to parse AI response") (Str [])).
Proof.
  exact (proj1 (missing_provider_text (Str (js "k")) (Arr [Obj []])
                  (λ _, Ret (Obj [(js "content", Arr [])]))
                  (Obj [(js "content", Arr [])]) eq_refl eq_refl eq_refl) eq_refl).
Defined.

(** X14: a truthy text that is not a string is never parsed: an array is
    sent back in the 502 answer, cut to its first 1000 elements, and any
    other value makes the excerpt fail, which the handler answers with 500
    and a [TypeError]. *)
Theorem provider_text_not_a_string key complaints post data :
  is_batch complaints = true → truthy key = true →
  post (provider_request key (take 50 (elements complaints))) = Ret data →
  truthy (provider_text data) = true → is_string (provider_text data) = false →
  fst (handle key complaints post)
  = match provider_text data with
    | Arr items =>
        Response 502 (Unparsed (js "Unable to parse AI response") (Arr (take 1000 items)))
    | _ => Response 500 (Failed (js "Analysis failed") (Some TypeError))
    end.
Proof.
  intros Hb Hk Hpost Ht Hs. rewrite (handle_answered _ _ _ _ Hb Hk Hpost).
  unfold respond. rewrite rawText_of_provider_text. unfold or_value. rewrite Ht.
  destruct (provider_text data); try done.
Qed.

Lemma provider_text_not_a_string_witness :
  fst (handle (Str (js "k")) (Arr [Obj []])
         (λ _, Ret (Obj [(js "content", Arr [Obj [(js "text", Bool true)]])])))
  = Response 500 (Failed (js "Analysis failed") (Some TypeError)).
Proof.
  exact (provider_text_not_a_string (Str (js "k")) (Arr [Obj []])
           (λ _, Ret (Obj [(js "content", Arr [Obj [(js "text", Bool true)]])]))
           (Obj [(js "content", Arr [Obj [(js "text", Bool true)]])])
           eq_refl eq_refl eq_refl eq_refl eq_refl).
Defined.

(** ** Fields the normalizer does not read *)

Ltac listed :=
  repeat first [by apply elem_of_cons; left | apply elem_of_cons; right].

Lemma normalizable_same a b :
  nullish a = nullish b →
  prop a (js "priority") = prop b (js "priority") →
  prop a (js "issues") = prop b (js "issues") →
  normalizable a = normalizable b.
Proof. intros H1 H2 H3. unfold normalizable. by rewrite H1, H2, H3. Qed.

(** X15: the normalizer reads five fields of an element and five of an
    issue, and nothing else of them has an effect: two elements that agree
    on [id], [priority], [summary], [risk_score] and [issues] are
    normalized alike, to results that differ in [raw] only, or both
    rejected; two issues that agree on [text], [rationale], [reason],
    [risk_category] and [category] are normalized to the same issue. *)
Theorem unread_fields_ignored :
  (∀ orig a b idx,
     nullish a = nullish b →
     (∀ k, k ∈ item_keys → prop a k = prop b k) →
     match normalizeItem orig a idx, normalizeItem orig b idx with
     | Ret ra, Ret rb =>
         Result.id ra = Result.id rb ∧
         Result.priority ra = Result.priority rb ∧
         Result.summary ra = Result.summary rb ∧
         Result.risk_score ra = Result.risk_score rb ∧
         Result.issues ra = Result.issues rb ∧
         Result.raw ra = a ∧ Result.raw rb = b
     | Throw ea, Throw eb => ea = eb
     | _, _ => False
     end) ∧
  (∀ a b,
     nullish a = nullish b →
     (∀ k, k ∈ issue_keys → prop a k = prop b k) →
     normalizeIssue a = normalizeIssue b).
Proof.
  split.
  - intros orig a b idx Hn Hk.
    assert (Hid : prop a (js "id") = prop b (js "id")).
    { apply Hk. unfold item_keys. listed. }
    assert (Hp : prop a (js "priority") = prop b (js "priority")).
    { apply Hk. unfold item_keys. listed. }
    assert (Hs : prop a (js "summary") = prop b (js "summary")).
    { apply Hk. unfold item_keys. listed. }
    assert (Hr : prop a (js "risk_score") = prop b (js "risk_score")).
    { apply Hk. unfold item_keys. listed. }
    assert (Hi : prop a (js "issues") = prop b (js "issues")).
    { apply Hk. unfold item_keys. listed. }
    pose proof (normalizable_same a b Hn Hp Hi) as Hsame.
    destruct (normalizeItem orig a idx) as [ra|ea] eqn:Ha,
             (normalizeItem orig b idx) as [rb|eb] eqn:Hb.
    + apply normalizeItem_Ret in Ha as (_ & sa & ia & Hsa & Hia & ->).
      apply normalizeItem_Ret in Hb as (_ & sb & ib & Hsb & Hib & ->).
      rewrite Hp in Hsa. rewrite Hi in Hia.
      assert (sa = sb) as -> by congruence.
      assert (ia = ib) as -> by congruence.
      fields. by rewrite Hid, Hs, Hr.
    + assert (normalizable a = true).
      { apply (normalizeItem_returns orig a idx). by exists ra. }
      assert (normalizable b = true) as Hnb by congruence.
      apply (normalizeItem_returns orig b idx) in Hnb as [r Hr']. congruence.
    + assert (normalizable b = true).
      { apply (normalizeItem_returns orig b idx). by exists rb. }
      assert (normalizable a = true) as Hna by congruence.
      apply (normalizeItem_returns orig a idx) in Hna as [r Hr']. congruence.
    + apply normalizeItem_throws in Ha, Hb. congruence.
  - intros a b Hn Hk.
    assert (H1 : prop a (js "text") = prop b (js "text")).
    { apply Hk. unfold issue_keys. listed. }
    assert (H2 : prop a (js "rationale") = prop b (js "rationale")).
    { apply Hk. unfold issue_keys. listed. }
    assert (H3 : prop a (js "reason") = prop b (js "reason")).
    { apply Hk. unfold issue_keys. listed. }
    assert (H4 : prop a (js "risk_category") = prop b (js "risk_category")).
    { apply Hk. unfold issue_keys. listed. }
    assert (H5 : prop a (js "category") = prop b (js "category")).
    { apply Hk. unfold issue_keys. listed. }
    destruct (nullish a) eqn:Ha.
    + unfold normalizeIssue. rewrite !(get_nullish a) by done.
      by rewrite !(get_nullish b) by done.
    + destruct (normalizeIssue_total a Ha) as [ya Hya].
      destruct (normalizeIssue_total b (eq_sym Hn)) as [yb Hyb].
      rewrite Hya, Hyb.
      apply normalizeIssue_Ret in Hya as [_ ->].
      apply normalizeIssue_Ret in Hyb as [_ ->].
      by rewrite H1, H2, H3, H4, H5.
Qed.
